(** * gvtester: a shallow embedding of the GPUVerify regression-test driver

    The development follows [gvtester.py]: the error-code registry
    ([GPUVerifyErrorCodes]), the kernel-header parser
    ([GPUVerifyTestKernel.__init__]), test execution
    ([GPUVerifyTestKernel.run]), the run comparison ([doComparison]), the
    command-line driver ([main]) and the worker pool ([Worker], [ThreadPool]).

    Python exceptions are values of [exn] carried by the [result] monad,
    dictionaries are [gmap]s, and the standard-library services the script
    calls ([re], [os.path], the tool process) are section variables. *)

From Stdlib Require Import ZArith List String Ascii Bool Lia.
From stdpp Require Import gmap strings list fin_maps.
Import ListNotations.

Local Open Scope Z_scope.

(** ** Exceptions and the error monad *)

Inductive pykey :=
| KStr (s : string)
| KInt (z : Z).

Inductive exn :=
| KernelParseError (lineNumber : Z) (fileName message : string)
| KeyError (key : pykey)
| ValueError (message : string)
| AttributeError (name : string)
| IndexError
| ReError (message : string)
| CanonicalisationError (path prefix : string)
| SystemExit (code : Z)
| IOError
| UnpicklingError
| EOFError.

Inductive result (A : Type) :=
| Ok (a : A)
| Raise (e : exn).
Arguments Ok {A} a.
Arguments Raise {A} e.

Global Instance result_ret : MRet result := fun A a => Ok a.

Global Instance result_bind : MBind result := fun A B k m =>
  match m with
  | Ok a => k a
  | Raise e => Raise e
  end.

Global Instance result_fmap : FMap result := fun A B f m =>
  match m with
  | Ok a => Ok (f a)
  | Raise e => Raise e
  end.

(** ** Strings, as Python 2 [str] *)

Definition dquote : string := String "034"%char EmptyString.
Definition newline : ascii := "010"%char.

Definition is_upper (c : ascii) : bool :=
  (65 <=? Z.of_nat (nat_of_ascii c)) && (Z.of_nat (nat_of_ascii c) <=? 90).
Definition is_lower (c : ascii) : bool :=
  (97 <=? Z.of_nat (nat_of_ascii c)) && (Z.of_nat (nat_of_ascii c) <=? 122).
Definition is_digit (c : ascii) : bool :=
  (48 <=? Z.of_nat (nat_of_ascii c)) && (Z.of_nat (nat_of_ascii c) <=? 57).

Definition lower_char (c : ascii) : ascii :=
  if is_upper c then ascii_of_nat (nat_of_ascii c + 32) else c.
Definition upper_char (c : ascii) : ascii :=
  if is_lower c then ascii_of_nat (nat_of_ascii c - 32) else c.

Fixpoint smap (f : ascii -> ascii) (s : string) : string :=
  match s with
  | EmptyString => EmptyString
  | String c r => String (f c) (smap f r)
  end.

(** [s.lower()] and [s.upper()]. *)
Definition lower : string -> string := smap lower_char.
Definition upper : string -> string := smap upper_char.

(** [s.startswith(p)]. *)
Definition startswith (p s : string) : bool := String.prefix p s.

(** [s[n:]]. *)
Fixpoint slice_from (n : nat) (s : string) : string :=
  match n, s with
  | O, _ => s
  | S n', String _ r => slice_from n' r
  | S _, EmptyString => EmptyString
  end.

(** [s[:-1]]. *)
Fixpoint drop_last (s : string) : string :=
  match s with
  | EmptyString => EmptyString
  | String c EmptyString => EmptyString
  | String c r => String c (drop_last r)
  end.

(** [s.find(c) != -1] for a one-character needle. *)
Fixpoint contains_char (c : ascii) (s : string) : bool :=
  match s with
  | EmptyString => false
  | String d r => if Ascii.eqb c d then true else contains_char c r
  end.

(** The longest prefix of [s] whose characters satisfy [p], and the rest. *)
Fixpoint span (p : ascii -> bool) (s : string) : string * string :=
  match s with
  | EmptyString => (EmptyString, EmptyString)
  | String c r =>
      if p c then let '(a, b) := span p r in (String c a, b)
      else (EmptyString, s)
  end.

(** A file object opened for reading is the list of the lines that
    successive [readline()] calls return, each with its newline; at end of
    file [readline()] returns the empty string. *)
Definition readline (fileObject : list string) : string * list string :=
  match fileObject with
  | [] => (EmptyString, [])
  | l :: rest => (l, rest)
  end.

(** The lines of a text, newlines kept: what [readline()] yields for a file
    with that content. *)
Fixpoint readlines_go (cur : string) (s : string) : list string :=
  match s with
  | EmptyString =>
      match cur with
      | EmptyString => []
      | _ => [String.rev cur]
      end
  | String c r =>
      if Ascii.eqb c newline
      then String.rev (String c cur) :: readlines_go EmptyString r
      else readlines_go (String c cur) r
  end.
Definition readlines : string -> list string := readlines_go EmptyString.

(** ** The error-code registry: [GPUVerifyErrorCodes]

    [GPUVerify.ErrorCodes] lives in GPUVerify.py, outside this script.  It is
    represented by the list of its attributes and their integer values, in the
    order in which [dir()] enumerates them (sorted by name). *)

Record GPUVerifyErrorCodes := {
  attributes : list (string * Z);
  errorCodeToString : gmap Z string
}.

Fixpoint lookup_attr (name : string) (attrs : list (string * Z)) : option Z :=
  match attrs with
  | [] => None
  | (n, v) :: rest => if String.eqb name n then Some v else lookup_attr name rest
  end.

(** [getattr(cls, name)], also written [cls.name]. *)
Definition getattr (attrs : list (string * Z)) (name : string) : result Z :=
  match lookup_attr name attrs with
  | Some v => Ok v
  | None => Raise (AttributeError name)
  end.

(** [cls.name = v], keeping the attributes in [dir()] order. *)
Fixpoint setattr (name : string) (v : Z) (attrs : list (string * Z))
  : list (string * Z) :=
  match attrs with
  | [] => [(name, v)]
  | (n, w) :: rest =>
      match String.compare name n with
      | Lt => (name, v) :: attrs
      | Eq => (name, v) :: rest
      | Gt => (n, w) :: setattr name v rest
      end
  end.

(** [[e for e in dir(c) if not e.startswith('_')]]. *)
Definition public (attrs : list (string * Z)) : list (string * Z) :=
  filter (fun nv => negb (startswith "_" (fst nv))) attrs.

(** The loop [for num in ...: if num > largest : largest = num]. *)
Definition find_largest (first : Z) (nums : list Z) : Z :=
  fold_left (fun largest num => if num >? largest then num else largest)
            nums first.

(** The loop [cls.errorCodeToString[num] = string]. *)
Definition reverse_mapping (attrs : list (string * Z)) : gmap Z string :=
  fold_left (fun m nv => <[snd nv := fst nv]> m) attrs ∅.

Definition static_init (base : list (string * Z)) : result GPUVerifyErrorCodes :=
  let codes := public base in
  match codes with
  | [] => Raise IndexError
  | (_, first) :: _ =>
      let largest := find_largest first (map snd codes) in
      let attrs := setattr "REGEX_MISMATCH_ERROR" (largest + 1) base in
      Ok {| attributes := attrs;
            errorCodeToString := reverse_mapping (public attrs) |}
  end.

Definition SUCCESS (cls : GPUVerifyErrorCodes) : result Z :=
  getattr (attributes cls) "SUCCESS".
Definition CTRL_C (cls : GPUVerifyErrorCodes) : result Z :=
  getattr (attributes cls) "CTRL_C".
Definition REGEX_MISMATCH_ERROR (cls : GPUVerifyErrorCodes) : result Z :=
  getattr (attributes cls) "REGEX_MISMATCH_ERROR".

(** The body of the loop of [getValidxfailCodes], over the items of
    [errorCodeToString]. *)
Fixpoint getValidxfailCodes_loop (cls : GPUVerifyErrorCodes)
    (items : list (Z * string)) : result (list (Z * string)) :=
  match items with
  | [] => Ok []
  | codeTuple :: rest =>
      success ← SUCCESS cls;
      skip ← (if fst codeTuple =? success then Ok true
              else mismatch ← REGEX_MISMATCH_ERROR cls;
                   Ok (fst codeTuple =? mismatch));
      codes ← getValidxfailCodes_loop cls rest;
      Ok (if skip : bool then codes else codeTuple :: codes)
  end.

Definition getValidxfailCodes (cls : GPUVerifyErrorCodes)
  : result (list (Z * string)) :=
  getValidxfailCodes_loop cls (map_to_list (errorCodeToString cls)).

(** [cls.errorCodeToString[code]]. *)
Definition errorCodeToString_get (cls : GPUVerifyErrorCodes) (code : Z)
  : result string :=
  match errorCodeToString cls !! code with
  | Some s => Ok s
  | None => Raise (KeyError (KInt code))
  end.

(** An instance of the registry for worked examples: the error-code names
    that this repository refers to, numbered in the order of gvapi.py's
    message table, with [CTRL_C] after them. *)
Definition sample_ErrorCodes : list (string * Z) :=
  [ ("BOOGIE_ERROR", 6); ("BUGLE_ERROR", 4); ("CLANG_ERROR", 2);
    ("COMMAND_LINE_ERROR", 1); ("CONFIGURATION_ERROR", 8); ("CTRL_C", 9);
    ("GPUVERIFYVCGEN_ERROR", 5); ("OPT_ERROR", 3); ("SUCCESS", 0);
    ("TIMEOUT", 7) ]%string.

(** ** The kernel header parser: [GPUVerifyTestKernel.__init__] *)

Inductive re_flag := IGNORECASE | MULTILINE.

(** A rule's status: [None] (not evaluated), [True] or [False]. *)
Record GPUVerifyTestKernel := {
  path : string;
  expectedReturnCode : Z;
  gpuverifyCmdArgs : list string;
  regex : gmap string (option bool);
  testPassed : option bool;
  returnedCode : option Z;
  gpuverifyReturnCode : option Z
}.

(** A literal of a pattern compiled with [re.IGNORECASE], matched at the
    start of [s]: the text matched and the rest. *)
Fixpoint match_literal (lit s : string) : option (string * string) :=
  match lit, s with
  | EmptyString, _ => Some (EmptyString, s)
  | String a lit', String c s' =>
      if Ascii.eqb (lower_char a) (lower_char c)
      then match match_literal lit' s' with
           | Some (m, r) => Some (String c m, r)
           | None => None
           end
      else None
  | String _ _, EmptyString => None
  end.

(** The class [[A-Z_]] under [re.IGNORECASE]. *)
Definition is_code_char (c : ascii) : bool :=
  is_upper c || is_lower c || Ascii.eqb c "_".

(** [regexOutcome.match(line)] for
    [regexOutcome = re.compile(r'^//(pass|xfail:([A-Z_]+))', re.IGNORECASE)]:
    [group(1)] and [group(2)] of the match, if there is one. *)
Definition regexOutcome_match (line : string) : option (string * option string) :=
  match match_literal "//" line with
  | None => None
  | Some (_, r) =>
      match match_literal "pass" r with
      | Some (g1, _) => Some (g1, None)
      | None =>
          match match_literal "xfail:" r with
          | None => None
          | Some (x, r') =>
              match span is_code_char r' with
              | (EmptyString, _) => None
              | (code, _) => Some (String.app x code, Some code)
              end
          end
      end
  end.

(** *** [string.Template(arg).substitute(mapping)]

    The template pattern of Python 2.7, matched case-insensitively, has four
    alternatives after the delimiter [$]: a second [$] (an escaped
    delimiter), an identifier (a letter or underscore, then letters, digits
    and underscores), such an identifier in braces, or nothing (an invalid
    placeholder); they are tried in that order at each [$], left to right.  An
    identifier that the mapping lacks raises [KeyError]; an invalid
    placeholder raises [ValueError]. *)

Definition is_id_start (c : ascii) : bool :=
  is_upper c || is_lower c || Ascii.eqb c "_".
Definition is_id_char (c : ascii) : bool :=
  is_id_start c || is_digit c.

Inductive template_mode :=
| TText
| TDelimiter
| TNamed (name : string)
| TBraceOpen
| TBraced (name : string).

Definition template_lookup (mapping : gmap string string) (name : string)
  : result string :=
  match mapping !! name with
  | Some v => Ok v
  | None => Raise (KeyError (KStr name))
  end.

Definition invalid_placeholder : exn :=
  ValueError "Invalid placeholder in string".

Fixpoint substitute_from (mapping : gmap string string) (mode : template_mode)
    (s : string) : result string :=
  match s with
  | EmptyString =>
      match mode with
      | TText => Ok EmptyString
      | TNamed name => template_lookup mapping (String.rev name)
      | TDelimiter | TBraceOpen | TBraced _ => Raise invalid_placeholder
      end
  | String c r =>
      let text :=
        if Ascii.eqb c "$" then substitute_from mapping TDelimiter r
        else String c <$> substitute_from mapping TText r in
      match mode with
      | TText => text
      | TDelimiter =>
          if Ascii.eqb c "$" then String c <$> substitute_from mapping TText r
          else if is_id_start c
               then substitute_from mapping (TNamed (String c EmptyString)) r
          else if Ascii.eqb c "{" then substitute_from mapping TBraceOpen r
          else Raise invalid_placeholder
      | TNamed name =>
          if is_id_char c then substitute_from mapping (TNamed (String c name)) r
          else v ← template_lookup mapping (String.rev name);
               String.app v <$> text
      | TBraceOpen =>
          if is_id_start c
          then substitute_from mapping (TBraced (String c EmptyString)) r
          else Raise invalid_placeholder
      | TBraced name =>
          if is_id_char c then substitute_from mapping (TBraced (String c name)) r
          else if Ascii.eqb c "}"
               then v ← template_lookup mapping (String.rev name);
                    String.app v <$> substitute_from mapping TText r
          else Raise invalid_placeholder
      end
  end.

Definition Template_substitute (mapping : gmap string string) (template : string)
  : result string :=
  substitute_from mapping TText template.

Section Tester.

(** The [re] module: compiled patterns, [re.compile(pattern, flags)], which
    yields a compiled pattern or the text of an [re.error], and
    [matcher.search(text) != None]. *)
Variable compiled : Type.
Variable re_compile : list re_flag -> string -> compiled + string.
Variable re_search : compiled -> string -> bool.

(** [os.path.dirname]. *)
Variable dirname : string -> string.

(** The class after the module-level [GPUVerifyErrorCodes.static_init()]. *)
Variable cls : GPUVerifyErrorCodes.

(** Line 1: the expected outcome. *)
Definition parse_expectedOutcome (path expectedOutcome : string) : result Z :=
  match regexOutcome_match expectedOutcome with
  | None =>
      Raise (KernelParseError 1 path
        (String.concat dquote
           ["First Line should say "; "//pass"; " or ";
            "//xfail:<ERROR_CODE>"; EmptyString]))
  | Some (group1, group2) =>
      if String.eqb (lower group1) "pass" then SUCCESS cls
      else
        match group2 with
        | None => Raise (AttributeError "upper")
        | Some g2 =>
            let xfailCodeAsString := upper g2 in
            valid ← getValidxfailCodes cls;
            if existsb (String.eqb xfailCodeAsString) (map snd valid)
            then getattr (attributes cls) xfailCodeAsString
            else Raise (KernelParseError 1 path
                   (String.concat dquote
                      [EmptyString; xfailCodeAsString;
                       " is not a valid error code for expected fail."]))
        end
  end.

Definition cmdArgsSubstitution (path : string) : gmap string string :=
  {[ "KERNEL_DIR"%string := dirname path ]}.

(** The body of the loop over [self.gpuverifyCmdArgs]. *)
Definition substitute_arg (path arg : string) : result string :=
  if contains_char "$" arg
  then Template_substitute (cmdArgsSubstitution path) arg
  else Ok arg.

(** Line 2: the arguments for the tool. *)
Definition parse_cmdArgs (path cmdArgs : string) : result (list string) :=
  if negb (startswith "//" cmdArgs)
  then Raise (KernelParseError 2 path
         (String.concat dquote
            ["Second Line should start with "; "//";
             " and then optionally space seperate arguments to pass to GPUVerify"]))
  else
    args ← mapM (substitute_arg path) (String.words (slice_from 2 cmdArgs));
    Ok (args ++ ["--use-cvc4"%string]).

(** Lines 3 onwards: the loop [while haveRegexLines].  [lines] is what is
    left of the file, [regex] is [self.regex] so far. *)
Fixpoint parse_regex_lines (path : string) (lineCounter : Z)
    (regex : gmap string (option bool)) (lines : list string)
  : result (gmap string (option bool)) :=
  match lines with
  | [] => Ok regex
  | l :: rest =>
      let line := drop_last l in
      if startswith "//" line && (2 <? String.length line)%nat
      then
        let key := slice_from 2 line in
        let regex' := <[key := None]> regex in
        match re_compile [] key with
        | inl _ => parse_regex_lines path (lineCounter + 1) regex' rest
        | inr e =>
            Raise (KernelParseError lineCounter path
              (String.concat EmptyString
                 ["Invalid Regex ("; "<class 'sre_constants.error'>";
                  " : "; e; ")"]))
        end
      else Ok regex
  end.

Definition GPUVerifyTestKernel_init (path : string) (fileObject : list string)
  : result GPUVerifyTestKernel :=
  let '(expectedOutcome, fileObject) := readline fileObject in
  expected ← parse_expectedOutcome path expectedOutcome;
  let '(cmdArgs, fileObject) := readline fileObject in
  args ← parse_cmdArgs path cmdArgs;
  rules ← parse_regex_lines path 3 ∅ fileObject;
  Ok {| path := path;
        expectedReturnCode := expected;
        gpuverifyCmdArgs := args;
        regex := rules;
        testPassed := None;
        returnedCode := None;
        gpuverifyReturnCode := None |}.

(** *** Test execution: [GPUVerifyTestKernel.run]

    The tool process is opaque: [returncode] and [stdout] are what
    [subprocess.Popen(...).communicate()] delivered. *)

(** The body of the loop [for regexToMatch in self.regex.keys()]. *)
Definition run_regex (stdout : string) (rules : gmap string (option bool))
    (regexToMatch : string) : result (gmap string (option bool)) :=
  match re_compile [MULTILINE] regexToMatch with
  | inr e => Raise (ReError e)
  | inl matcher =>
      if negb (re_search matcher stdout)
      then Ok (<[regexToMatch := Some false]> rules)
      else Ok (<[regexToMatch := Some true]> rules)
  end.

Fixpoint run_regexes (stdout : string) (rules : gmap string (option bool))
    (keys : list string) : result (gmap string (option bool)) :=
  match keys with
  | [] => Ok rules
  | regexToMatch :: rest =>
      rules' ← run_regex stdout rules regexToMatch;
      run_regexes stdout rules' rest
  end.

(** [False in self.regex.values()]. *)
Definition False_in_values (rules : gmap string (option bool)) : bool :=
  existsb (fun kv => match snd kv with Some false => true | _ => false end)
          (map_to_list rules).

Definition run (self : GPUVerifyTestKernel) (returncode : Z) (stdout : string)
  : result GPUVerifyTestKernel :=
  _ ← errorCodeToString_get cls returncode;
  rules ← (if returncode =? expectedReturnCode self
           then run_regexes stdout (regex self) (map fst (map_to_list (regex self)))
           else Ok (regex self));
  returned ← (if False_in_values rules then REGEX_MISMATCH_ERROR cls
              else Ok returncode);
  if negb (returned =? expectedReturnCode self)
  then
    _ ← errorCodeToString_get cls returned;
    _ ← errorCodeToString_get cls (expectedReturnCode self);
    Ok {| path := path self;
          expectedReturnCode := expectedReturnCode self;
          gpuverifyCmdArgs := gpuverifyCmdArgs self;
          regex := rules;
          testPassed := Some false;
          returnedCode := Some returned;
          gpuverifyReturnCode := Some returncode |}
  else
    Ok {| path := path self;
          expectedReturnCode := expectedReturnCode self;
          gpuverifyCmdArgs := gpuverifyCmdArgs self;
          regex := rules;
          testPassed := Some true;
          returnedCode := Some returned;
          gpuverifyReturnCode := Some returncode |}.

Definition hasBeenExecuted (self : GPUVerifyTestKernel) : bool :=
  match testPassed self with
  | None => false
  | Some _ => true
  end.

End Tester.

(** ** The run comparison: [getCanonicalTestName] and [doComparison] *)

Definition backslash : ascii := "092"%char.

Definition getCanonicalTestName (path prefix : string) : result string :=
  match String.index 0 prefix path with
  | Some i =>
      Ok (smap (fun c => if Ascii.eqb c backslash then "/"%char else c)
               (slice_from i path))
  | None => Raise (CanonicalisationError path prefix)
  end.

(** The key under which [doComparison] files a test: its canonical name, or
    its path when there is none. *)
Definition cPath_of (canonicalPathPrefix : string) (test : GPUVerifyTestKernel)
  : string :=
  match getCanonicalTestName (path test) canonicalPathPrefix with
  | Ok cPath => cPath
  | Raise _ => path test
  end.

(** The loop [testDictionary[cPath] = test]. *)
Definition make_testDictionary (canonicalPathPrefix : string)
    (testList : list GPUVerifyTestKernel) : gmap string GPUVerifyTestKernel :=
  fold_left (fun d test => <[cPath_of canonicalPathPrefix test := test]> d)
            testList ∅.

(** What [doComparison] reports with [logging.warning]. *)
Inductive warning :=
| ResultChanged (cPath : string)
| MissingTest (cPath : string)
| NewTest (cPath : string).

Record comparison := {
  changedTestCounter : Z;
  missingTestCounter : Z;
  newTestCounter : Z;
  changeIsWorse : bool;
  warnings : list warning
}.

(** [a != b] on [testPassed] values, and the truth value of one. *)
Definition testPassed_ne (a b : option bool) : bool :=
  negb (bool_decide (a = b)).
Definition truthy (a : option bool) : bool :=
  match a with
  | Some true => true
  | _ => false
  end.

(** The body of the loop over [oldTestDic.items()]. *)
Definition compare_old (newTestDic : gmap string GPUVerifyTestKernel)
    (st : comparison) (item : string * GPUVerifyTestKernel) : comparison :=
  let '(cPath, oldTest) := item in
  match newTestDic !! cPath with
  | Some newTest =>
      if testPassed_ne (testPassed oldTest) (testPassed newTest)
      then {| changedTestCounter := changedTestCounter st + 1;
              missingTestCounter := missingTestCounter st;
              newTestCounter := newTestCounter st;
              changeIsWorse :=
                if truthy (testPassed oldTest) then true else changeIsWorse st;
              warnings := warnings st ++ [ResultChanged cPath] |}
      else st
  | None =>
      {| changedTestCounter := changedTestCounter st;
         missingTestCounter := missingTestCounter st + 1;
         newTestCounter := newTestCounter st;
         changeIsWorse := true;
         warnings := warnings st ++ [MissingTest cPath] |}
  end.

(** The body of the loop over [newTestDic.keys()]. *)
Definition compare_new (oldTestDic : gmap string GPUVerifyTestKernel)
    (st : comparison) (cPath : string) : comparison :=
  match oldTestDic !! cPath with
  | None =>
      {| changedTestCounter := changedTestCounter st;
         missingTestCounter := missingTestCounter st;
         newTestCounter := newTestCounter st + 1;
         changeIsWorse := changeIsWorse st;
         warnings := warnings st ++ [NewTest cPath] |}
  | Some _ => st
  end.

(** The state of [doComparison] when it reaches its summary. *)
Definition doComparison_loops (oldTestList newTestList : list GPUVerifyTestKernel)
    (canonicalPathPrefix : string) : comparison :=
  let oldTestDic := make_testDictionary canonicalPathPrefix oldTestList in
  let newTestDic := make_testDictionary canonicalPathPrefix newTestList in
  let st0 := {| changedTestCounter := 0; missingTestCounter := 0;
                newTestCounter := 0; changeIsWorse := false; warnings := [] |} in
  let st1 := fold_left (compare_old newTestDic) (map_to_list oldTestDic) st0 in
  fold_left (compare_new oldTestDic) (map fst (map_to_list newTestDic)) st1.

Definition doComparison (oldTestList newTestList : list GPUVerifyTestKernel)
    (canonicalPathPrefix : string) : Z :=
  let st := doComparison_loops oldTestList newTestList canonicalPathPrefix in
  if changeIsWorse st then 1
  else if (changedTestCounter st =? 0) && (missingTestCounter st =? 0)
          && (newTestCounter st =? 0) then 0
  else -1.

(** ** Exit statuses and the command line *)

(** [enum('SUCCESS', 'FILE_SEARCH_ERROR', ...)]: each name is numbered by its
    position. *)
Module GPUVerifyTesterErrorCodes.
Definition SUCCESS : Z := 0.
Definition FILE_SEARCH_ERROR : Z := 1.
Definition KERNEL_PARSE_ERROR : Z := 2.
Definition TEST_FAILED : Z := 3.
Definition FILE_OPEN_ERROR : Z := 4.
Definition GENERAL_ERROR : Z := 5.
End GPUVerifyTesterErrorCodes.

(** [openPickle].  [pickles path] is what opening the file at [path] and
    [pickle.load] of it do: they give the pickled run or raise.  The two
    [except] clauses turn an [IOError] and a [pickle.UnpicklingError] into
    [sys.exit(FILE_OPEN_ERROR)]; any other exception of the load, such as
    the [EOFError] of an empty or truncated file, is not caught. *)
Definition openPickle (pickles : string -> result (list GPUVerifyTestKernel))
    (path : string) : result (list GPUVerifyTestKernel) :=
  match pickles path with
  | Ok tests => Ok tests
  | Raise IOError | Raise UnpicklingError =>
      Raise (SystemExit GPUVerifyTesterErrorCodes.FILE_OPEN_ERROR)
  | Raise e => Raise e
  end.

(** The action of [--compare-pickles old new]: it ends in [sys.exit], or
    with an exception of a load that [openPickle] does not catch. *)
Definition comparePickleFiles (pickles : string -> result (list GPUVerifyTestKernel))
    (old new canonical_path_prefix : string) : result Z :=
  oldTests ← openPickle pickles old;
  newTests ← openPickle pickles new;
  let result := doComparison oldTests newTests canonical_path_prefix in
  if (result =? -1) || (result =? 0)
  then Raise (SystemExit GPUVerifyTesterErrorCodes.SUCCESS)
  else Raise (SystemExit 1).

(** The status with which the interpreter leaves [sys.exit(main(sys.argv))]:
    the value returned, the code of a [SystemExit], or 1 after an uncaught
    exception. *)
Definition exit_status (r : result Z) : Z :=
  match r with
  | Ok v => v
  | Raise (SystemExit code) => code
  | Raise _ => 1
  end.

(** ** The driver: [main] *)

(** The namespace that [parser.parse_args()] returns: one attribute for each
    [add_argument] call whose value [main] reads. *)
Record Namespace := {
  directory : string;
  kernel_regex : string;
  log_level : string;
  write_pickle : string;
  canonical_path_prefix : string;
  compare_run : string;
  threads : Z;
  run_only_pass : bool;
  run_only_xfail : bool
}.

(** [args.stop_on_fail]: no [add_argument] call defines this attribute, so
    reading it raises [AttributeError]. *)
Definition stop_on_fail (args : Namespace) : result bool :=
  Raise (AttributeError "stop_on_fail").

Section Main.

Variable compiled : Type.
Variable re_compile : list re_flag -> string -> compiled + string.
Variable re_search : compiled -> string -> bool.
Variable dirname : string -> string.
Variable cls : GPUVerifyErrorCodes.

(** The environment of a run: what loading each pickle file does, whether
    the directory exists, the kernel files found under it for a file-name
    pattern (after [kernelFiles.sort()]), and the lines of each file. *)
Variable pickles : string -> result (list GPUVerifyTestKernel).
Variable isdir : string -> bool.
Variable find_kernels : string -> string -> list string.
Variable open_file : string -> list string.

(** The state of the objects of [tests] when [threadPool.waitForCompletion()]
    returns, for the number of threads and the tests added to the pool. *)
Variable waitForCompletion :
  Z -> list GPUVerifyTestKernel -> list GPUVerifyTestKernel ->
  list GPUVerifyTestKernel.

(** The loop [for kernelPath in kernelFiles]: the tests parsed, or the
    value that [main] returns from inside the loop. *)
Fixpoint parse_kernels (args : Namespace) (kernelFiles : list string)
    (tests : list GPUVerifyTestKernel) : result (list GPUVerifyTestKernel + Z) :=
  match kernelFiles with
  | [] => Ok (inl tests)
  | kernelPath :: rest =>
      match GPUVerifyTestKernel_init compiled re_compile dirname cls
              kernelPath (open_file kernelPath) with
      | Ok test => parse_kernels args rest (tests ++ [test])
      | Raise (KernelParseError _ _ _) =>
          stop ← stop_on_fail args;
          if stop : bool
          then Ok (inr GPUVerifyTesterErrorCodes.KERNEL_PARSE_ERROR)
          else parse_kernels args rest tests
      | Raise e => Raise e
      end
  end.

(** The loop [for test in tests] that fills the pool: the tests added. *)
Fixpoint add_tests (args : Namespace) (tests : list GPUVerifyTestKernel)
  : result (list GPUVerifyTestKernel) :=
  match tests with
  | [] => Ok []
  | test :: rest =>
      skip_xfail ← (if run_only_pass args
                    then success ← SUCCESS cls;
                         Ok (negb (expectedReturnCode test =? success))
                    else Ok false);
      if skip_xfail : bool then add_tests args rest
      else
        skip_pass ← (if run_only_xfail args
                     then success ← SUCCESS cls;
                          Ok (expectedReturnCode test =? success)
                     else Ok false);
        if skip_pass : bool then add_tests args rest
        else cons test <$> add_tests args rest
  end.

Definition main (args : Namespace) : result Z :=
  if String.eqb (write_pickle args) (compare_run args)
     && (0 <? String.length (write_pickle args))%nat
  then Ok GPUVerifyTesterErrorCodes.GENERAL_ERROR
  else if threads args >? 50
  then Ok GPUVerifyTesterErrorCodes.GENERAL_ERROR
  else
    oldTests ← (if (0 <? String.length (compare_run args))%nat
                then Some <$> openPickle pickles (compare_run args)
                else Ok None);
    if negb (isdir (directory args))
    then Ok GPUVerifyTesterErrorCodes.FILE_SEARCH_ERROR
    else
      let kernelFiles := find_kernels (directory args) (kernel_regex args) in
      if (length kernelFiles =? 0)%nat
      then Ok GPUVerifyTesterErrorCodes.FILE_SEARCH_ERROR
      else
        parsed ← parse_kernels args kernelFiles [];
        match parsed with
        | inr code => Ok code
        | inl tests =>
            added ← add_tests args tests;
            let tests' := waitForCompletion (threads args) added tests in
            let _ :=
              match oldTests with
              | Some old =>
                  Some (doComparison old tests' (canonical_path_prefix args))
              | None => None
              end in
            Ok GPUVerifyTesterErrorCodes.SUCCESS
        end.

End Main.

(** ** The sets that a comparison is about *)

(** An item of the old dictionary whose identity is in the new one with a
    different [testPassed]. *)
Definition is_changed (newTestDic : gmap string GPUVerifyTestKernel)
    (item : string * GPUVerifyTestKernel) : bool :=
  match newTestDic !! fst item with
  | Some newTest => testPassed_ne (testPassed (snd item)) (testPassed newTest)
  | None => false
  end.

(** An item whose identity the other dictionary lacks. *)
Definition is_absent (other : gmap string GPUVerifyTestKernel)
    (item : string * GPUVerifyTestKernel) : bool :=
  match other !! fst item with
  | Some _ => false
  | None => true
  end.

Definition changed_ids (oldTestDic newTestDic : gmap string GPUVerifyTestKernel)
  : gset string :=
  dom (filter (fun item => is_changed newTestDic item = true) oldTestDic).

Definition missing_ids (oldTestDic newTestDic : gmap string GPUVerifyTestKernel)
  : gset string :=
  dom (filter (fun item => is_absent newTestDic item = true) oldTestDic).

Definition new_ids (oldTestDic newTestDic : gmap string GPUVerifyTestKernel)
  : gset string :=
  dom (filter (fun item => is_absent oldTestDic item = true) newTestDic).

(** An item of the old dictionary that makes the change one for the worse. *)
Definition is_worse (newTestDic : gmap string GPUVerifyTestKernel)
    (item : string * GPUVerifyTestKernel) : bool :=
  is_absent newTestDic item
  || (is_changed newTestDic item && truthy (testPassed (snd item))).

(** The warning that the first loop issues for an item of the old dictionary. *)
Definition old_warning (newTestDic : gmap string GPUVerifyTestKernel)
    (item : string * GPUVerifyTestKernel) : list warning :=
  if is_changed newTestDic item then [ResultChanged (fst item)]
  else if is_absent newTestDic item then [MissingTest (fst item)]
  else [].

(** The warning that the second loop issues for a key of the new dictionary. *)
Definition new_warning (oldTestDic : gmap string GPUVerifyTestKernel)
    (cPath : string) : list warning :=
  match oldTestDic !! cPath with
  | None => [NewTest cPath]
  | Some _ => []
  end.

(** Recorded tests for worked examples: one kernel, as it is pickled after it
    passed, after it failed (the tool could not compile it), and when it was
    not executed. *)
Definition kernel_passed : GPUVerifyTestKernel :=
  {| path := "/home/alice/testsuite/a/kernel.cl";
     expectedReturnCode := 0;
     gpuverifyCmdArgs := ["--use-cvc4"%string];
     regex := ∅;
     testPassed := Some true;
     returnedCode := Some 0;
     gpuverifyReturnCode := Some 0 |}.

Definition kernel_failed : GPUVerifyTestKernel :=
  {| path := "/home/alice/testsuite/a/kernel.cl";
     expectedReturnCode := 0;
     gpuverifyCmdArgs := ["--use-cvc4"%string];
     regex := ∅;
     testPassed := Some false;
     returnedCode := Some 2;
     gpuverifyReturnCode := Some 2 |}.

Definition kernel_unexecuted : GPUVerifyTestKernel :=
  {| path := "/home/alice/testsuite/a/kernel.cl";
     expectedReturnCode := 0;
     gpuverifyCmdArgs := ["--use-cvc4"%string];
     regex := ∅;
     testPassed := None;
     returnedCode := None;
     gpuverifyReturnCode := None |}.

(** A test as the parser leaves it: no rule has been evaluated. *)
Definition unevaluated (self : GPUVerifyTestKernel) : Prop :=
  map_Forall (fun _ status => status = None) (regex self).

(** A regular-expression engine for worked examples: a pattern is a literal
    text, found anywhere in the output; a pattern that is a lone opening
    parenthesis does not compile. *)
Definition literal_compile (flags : list re_flag) (pattern : string)
  : string + string :=
  if String.eqb pattern "(" then inr "unbalanced parenthesis"%string
  else inl pattern.
Definition literal_search (matcher text : string) : bool :=
  match String.index 0 matcher text with
  | Some _ => true
  | None => false
  end.

(** The class that [static_init] builds from [sample_ErrorCodes]. *)
Definition sample_cls : GPUVerifyErrorCodes :=
  {| attributes := setattr "REGEX_MISMATCH_ERROR" 10 sample_ErrorCodes;
     errorCodeToString :=
       reverse_mapping
         (public (setattr "REGEX_MISMATCH_ERROR" 10 sample_ErrorCodes)) |}.

(** A parsed kernel that expects success and an output line saying so. *)
Definition kernel_with_rule : GPUVerifyTestKernel :=
  {| path := "/home/alice/testsuite/a/kernel.cl";
     expectedReturnCode := 0;
     gpuverifyCmdArgs := ["--use-cvc4"%string];
     regex := {[ "Verified"%string := None ]};
     testPassed := None;
     returnedCode := None;
     gpuverifyReturnCode := None |}.

(** A line that is the bare marker and one more character, its newline. *)
Definition bare_marker (c : ascii) : string :=
  String "/" (String "/" (String c EmptyString)).

(** ** The first line, in the words of the specification *)

Fixpoint all_chars (p : ascii -> bool) (s : string) : bool :=
  match s with
  | EmptyString => true
  | String c r => p c && all_chars p r
  end.

(** No character of the class [p] starts [s]. *)
Definition stops (p : ascii -> bool) (s : string) : bool :=
  match s with
  | EmptyString => true
  | String c _ => negb (p c)
  end.

(** The line starts with [//pass], in any case. *)
Definition matches_pass (line : string) : Prop :=
  exists m rest, line = String.app m rest /\ lower m = "//pass"%string.

(** The line starts with [//xfail:], in any case, followed by [code]: the
    letters and underscores up to the first other character. *)
Definition matches_xfail (line code : string) : Prop :=
  exists m rest,
    line = String.app m (String.app code rest) /\
    lower m = "//xfail:"%string /\
    code <> EmptyString /\
    all_chars is_code_char code = true /\
    stops is_code_char rest = true.

(** A line of a file: the text and its newline. *)
Definition line (text : string) : string :=
  String.app text (String newline EmptyString).

(** ** A run for worked examples

    One kernel under the directory of the tests, which expects success; the
    tool fails to compile it (exit code 2 in the sample registry); the run
    is compared with an old one in which the kernel passed. *)

Definition sample_args : Namespace :=
  {| directory := "/home/alice/testsuite";
     kernel_regex := "^kernel\.(cu|cl)$";
     log_level := "INFO";
     write_pickle := EmptyString;
     canonical_path_prefix := "testsuite";
     compare_run := "old.pickle";
     threads := 1;
     run_only_pass := false;
     run_only_xfail := false |}.

Definition sample_pickles (path : string) : result (list GPUVerifyTestKernel) :=
  if String.eqb path "old.pickle" then Ok [kernel_passed]
  else if String.eqb path "empty.pickle" then Raise EOFError
  else Raise IOError.

Definition sample_find_kernels (directory kernel_regex : string) : list string :=
  ["/home/alice/testsuite/a/kernel.cl"%string].

Definition sample_open_file (path : string) : list string :=
  [line "//pass"; line "//"].

(** A kernel file whose first line is not a valid outcome. *)
Definition broken_open_file (path : string) : list string :=
  [line "// a kernel without a header"; line "//"].

(** The pool for one worker and a tool that always exits with [returncode]
    and prints [stdout], when every test was added: each is run in turn. *)
Definition one_worker (cls : GPUVerifyErrorCodes) (returncode : Z) (stdout : string)
    (threads : Z) (added tests : list GPUVerifyTestKernel)
  : list GPUVerifyTestKernel :=
  map (fun test =>
         match run string literal_compile literal_search cls test returncode stdout with
         | Ok test' => test'
         | Raise _ => test
         end) tests.

(** ** The worker pool: [Worker] and [ThreadPool]

    The threads of the pool interleave.  The operations of [Queue.Queue]
    hold its mutex, so each is one step; a test object is reached only
    through the queue, so the call [test.run()] and the [task_done()] that
    follows are one step of the worker that dequeued the test. *)

Inductive worker_state :=
| Waiting
| Running (test : nat)
| Draining
| Dead.

(** [Waiting]: at [theQueue.get] of the main loop.  [Running test]: between
    that [get] and the end of [test.run()].  [Draining]: in the loop that
    empties the queue after the tool exited with [CTRL_C].  [Dead]: the
    thread ended with an exception. *)

Record pool := {
  theQueue : list nat;
  unfinished_tasks : nat;
  workers : list worker_state;
  tests : list GPUVerifyTestKernel;
  executed : list (nat * nat);
  drained : list nat;
  crashed : list nat
}.

(** [theQueue] holds the tests by their position in [tests], the objects
    added to the pool.  The last three fields record history: the calls of
    [run] that returned, as worker and test, the tests that a draining
    worker removed, and the tests whose [run] raised. *)

(** [ThreadPool(numberOfThreads)], [addTest] for each test, [start()]. *)
Definition ThreadPool_start (numberOfThreads : nat)
    (added : list GPUVerifyTestKernel) : pool :=
  {| theQueue := seq 0 (length added);
     unfinished_tasks := length added;
     workers := replicate numberOfThreads Waiting;
     tests := added;
     executed := [];
     drained := [];
     crashed := [] |}.

(** The tests that some worker is running. *)
Fixpoint inflight (ws : list worker_state) : list nat :=
  match ws with
  | [] => []
  | Running test :: rest => test :: inflight rest
  | _ :: rest => inflight rest
  end.

(** [theQueue.join()] returns once [unfinished_tasks] is zero. *)
Definition waitForCompletion_returns (s : pool) : Prop :=
  unfinished_tasks s = 0%nat.

Section Pool.

Variable compiled : Type.
Variable re_compile : list re_flag -> string -> compiled + string.
Variable re_search : compiled -> string -> bool.
Variable cls : GPUVerifyErrorCodes.

(** Where a worker goes after [test.run()] and [task_done()]: it compares
    the exit code of the tool with [GPUVerifyErrorCodes.CTRL_C]. *)
Definition after_run (returncode : Z) : worker_state :=
  match CTRL_C cls with
  | Ok ctrl_c => if returncode =? ctrl_c then Draining else Waiting
  | Raise _ => Dead
  end.

(** One step of one worker.  The tool is opaque: [test.run()] may see any
    exit code and output.  [task_done()] is only reached with
    [unfinished_tasks] positive. *)
Inductive step : pool -> pool -> Prop :=
| step_get s w test rest :
    workers s !! w = Some Waiting ->
    theQueue s = test :: rest ->
    step s {| theQueue := rest;
              unfinished_tasks := unfinished_tasks s;
              workers := <[w := Running test]> (workers s);
              tests := tests s;
              executed := executed s;
              drained := drained s;
              crashed := crashed s |}
| step_run s w test self returncode stdout self' n :
    workers s !! w = Some (Running test) ->
    tests s !! test = Some self ->
    run compiled re_compile re_search cls self returncode stdout = Ok self' ->
    unfinished_tasks s = S n ->
    step s {| theQueue := theQueue s;
              unfinished_tasks := n;
              workers := <[w := after_run returncode]> (workers s);
              tests := <[test := self']> (tests s);
              executed := (w, test) :: executed s;
              drained := drained s;
              crashed := crashed s |}
| step_run_raises s w test self returncode stdout e :
    workers s !! w = Some (Running test) ->
    tests s !! test = Some self ->
    run compiled re_compile re_search cls self returncode stdout = Raise e ->
    step s {| theQueue := theQueue s;
              unfinished_tasks := unfinished_tasks s;
              workers := <[w := Dead]> (workers s);
              tests := tests s;
              executed := executed s;
              drained := drained s;
              crashed := test :: crashed s |}
| step_drain s w test rest n :
    workers s !! w = Some Draining ->
    theQueue s = test :: rest ->
    unfinished_tasks s = S n ->
    step s {| theQueue := rest;
              unfinished_tasks := n;
              workers := workers s;
              tests := tests s;
              executed := executed s;
              drained := test :: drained s;
              crashed := crashed s |}.

(** What holds of every state of a pool started with [numberOfThreads]
    workers on the tests [added]. *)
Record pool_invariant (numberOfThreads : nat)
    (added : list GPUVerifyTestKernel) (s : pool) : Prop := {
  inv_partition :
    theQueue s ++ inflight (workers s) ++ map snd (executed s)
      ++ drained s ++ crashed s ≡ₚ seq 0 (length added);
  inv_unfinished :
    unfinished_tasks s =
    (length (theQueue s) + length (inflight (workers s)) + length (crashed s))%nat;
  inv_workers : length (workers s) = numberOfThreads;
  inv_tests : length (tests s) = length added;
  inv_untouched :
    forall i, i ∈ theQueue s ++ inflight (workers s) ++ drained s ->
              tests s !! i = added !! i;
  inv_executed :
    forall w i, (w, i) ∈ executed s ->
      (w < numberOfThreads)%nat /\
      exists test, tests s !! i = Some test /\ hasBeenExecuted test = true;
  inv_drained : drained s <> [] -> Draining ∈ workers s;
  inv_crashed : crashed s <> [] -> Dead ∈ workers s
}.


End Pool.

(** ** A pool for worked examples

    Two workers and three tests.  Worker 0 takes the first test, and the
    tool is interrupted (exit code 9, [CTRL_C] in the sample registry);
    worker 0 then removes the second test from the queue; worker 1 takes
    the third test and runs it. *)





(** ** Occurrences of a text in a path *)

(** [text] occurs in [s] after the first [n] characters. *)
Definition occurs_at (text s : string) (n : nat) : Prop :=
  exists before after,
    s = String.app before (String.app text after) /\ String.length before = n.

(** [s.replace('\\', '/')]. *)
Definition to_unix (s : string) : string :=
  smap (fun c => if Ascii.eqb c backslash then "/"%char else c) s.

(** ** Rule lines and identifiers *)

(** A comment line with the pattern [key]; [last] is its final character,
    the newline unless the file ends without one. *)
Definition rule_line (key : string) (last : ascii) : string :=
  String "/" (String "/" (String.app key (String last EmptyString))).

(** A Python identifier, as the template pattern reads it. *)
Definition is_identifier (name : string) : bool :=
  match name with
  | EmptyString => false
  | String c rest => is_id_start c && all_chars is_id_char rest
  end.

(** A rule line's key and last character, for a pattern that is not empty
    and that [re.compile] accepts. *)
Definition valid_key {compiled : Type}
    (re_compile : list re_flag -> string -> compiled + string)
    (kc : string * ascii) : Prop :=
  fst kc <> EmptyString /\ exists matcher, re_compile [] (fst kc) = inl matcher.
(** ** [enum]

    [dict(pairs)]: a later pair replaces an earlier one with the same key. *)
Definition dict {K V : Type} `{Countable K} (pairs : list (K * V)) : gmap K V :=
  fold_left (fun m kv => <[fst kv := snd kv]> m) pairs ∅.

(** An attribute of the class that [enum] builds: the position of a name,
    or the reverse dictionary. *)
Inductive enum_attr :=
| EInt (i : Z)
| EReverse (reverse : gmap Z string).

(** [enum] applied to the names [sequential]: the dictionary [enums] that
    becomes the class. *)
Definition enum (sequential : list string) : gmap string enum_attr :=
  let enums :=
    dict (zip sequential (map Z.of_nat (seq 0 (length sequential)))) in
  let reverse :=
    dict (map (fun kv => (snd kv, fst kv)) (map_to_list enums)) in
  <["reverseMapping"%string := EReverse reverse]> (EInt <$> enums).

(** The names of [GPUVerifyTesterErrorCodes]. *)
Definition tester_codes : list string :=
  ["SUCCESS"; "FILE_SEARCH_ERROR"; "KERNEL_PARSE_ERROR"; "TEST_FAILED";
   "FILE_OPEN_ERROR"; "GENERAL_ERROR"]%string.
(** The pool after the worker [w], running [test], ended with an exception
    raised by [test.run()]: the thread is dead and [task_done()] was not
    called. *)
Definition crash (s : pool) (w test : nat) : pool :=
  {| theQueue := theQueue s;
     unfinished_tasks := unfinished_tasks s;
     workers := <[w := Dead]> (workers s);
     tests := tests s;
     executed := executed s;
     drained := drained s;
     crashed := test :: crashed s |}.

(** One worker has taken the only test of a pool. *)
Definition sample_taken : pool :=
  {| theQueue := [];
     unfinished_tasks := 1;
     workers := [Running 0];
     tests := [kernel_unexecuted];
     executed := [];
     drained := [];
     crashed := [] |}.
(** ** The summary of a run: [summariseTests] *)

(** [s.endswith(suffix)]. *)
Definition endswith (suffix s : string) : bool :=
  (String.length suffix <=? String.length s)%nat &&
  String.eqb (slice_from (String.length s - String.length suffix) s) suffix.

(** The counters that [summariseTests] prints. *)
Record summary := {
  OpenCLCounter : nat;
  CUDACounter : nat;
  passCounter : nat;
  failCounter : nat;
  xfailCounter : nat;
  skipCounter : nat
}.

(** The first statement of the loop body: the kind of the kernel. *)
Definition count_kind (counters : summary) (test : GPUVerifyTestKernel) : summary :=
  if endswith "cl" (path test)
  then {| OpenCLCounter := OpenCLCounter counters + 1;
          CUDACounter := CUDACounter counters;
          passCounter := passCounter counters;
          failCounter := failCounter counters;
          xfailCounter := xfailCounter counters;
          skipCounter := skipCounter counters |}
  else {| OpenCLCounter := OpenCLCounter counters;
          CUDACounter := CUDACounter counters + 1;
          passCounter := passCounter counters;
          failCounter := failCounter counters;
          xfailCounter := xfailCounter counters;
          skipCounter := skipCounter counters |}.

(** The second statement of the loop body: the outcome of the test.
    [GPUVerifyErrorCodes.SUCCESS] is read only for a test that passed. *)
Definition count_outcome (cls : GPUVerifyErrorCodes) (counters : summary)
    (test : GPUVerifyTestKernel) : result summary :=
  if hasBeenExecuted test
  then
    if truthy (testPassed test)
    then
      success ← SUCCESS cls;
      if bool_decide (returnedCode test = Some success)
      then Ok {| OpenCLCounter := OpenCLCounter counters;
                 CUDACounter := CUDACounter counters;
                 passCounter := passCounter counters + 1;
                 failCounter := failCounter counters;
                 xfailCounter := xfailCounter counters;
                 skipCounter := skipCounter counters |}
      else Ok {| OpenCLCounter := OpenCLCounter counters;
                 CUDACounter := CUDACounter counters;
                 passCounter := passCounter counters;
                 failCounter := failCounter counters;
                 xfailCounter := xfailCounter counters + 1;
                 skipCounter := skipCounter counters |}
    else Ok {| OpenCLCounter := OpenCLCounter counters;
               CUDACounter := CUDACounter counters;
               passCounter := passCounter counters;
               failCounter := failCounter counters + 1;
               xfailCounter := xfailCounter counters;
               skipCounter := skipCounter counters |}
  else Ok {| OpenCLCounter := OpenCLCounter counters;
             CUDACounter := CUDACounter counters;
             passCounter := passCounter counters;
             failCounter := failCounter counters;
             xfailCounter := xfailCounter counters;
             skipCounter := skipCounter counters + 1 |}.

(** The loop [for test in tests]. *)
Fixpoint summariseTests_loop (cls : GPUVerifyErrorCodes) (counters : summary)
    (tests : list GPUVerifyTestKernel) : result summary :=
  match tests with
  | [] => Ok counters
  | test :: rest =>
      counters' ← count_outcome cls (count_kind counters test) test;
      summariseTests_loop cls counters' rest
  end.

(** [summariseTests(tests)]: the counters that it prints, with
    [len(tests)]. *)
Definition summariseTests (cls : GPUVerifyErrorCodes)
    (tests : list GPUVerifyTestKernel) : result summary :=
  summariseTests_loop cls
    {| OpenCLCounter := 0; CUDACounter := 0; passCounter := 0;
       failCounter := 0; xfailCounter := 0; skipCounter := 0 |} tests.

(** How a test counts for a registry whose success code is [success]. *)
Definition counts_as_pass (success : Z) (test : GPUVerifyTestKernel) : bool :=
  truthy (testPassed test) && bool_decide (returnedCode test = Some success).
Definition counts_as_xfail (success : Z) (test : GPUVerifyTestKernel) : bool :=
  truthy (testPassed test) && negb (bool_decide (returnedCode test = Some success)).
Definition counts_as_fail (test : GPUVerifyTestKernel) : bool :=
  bool_decide (testPassed test = Some false).
(** The two checks of the options with which [main] starts. *)
Definition config_error (args : Namespace) : bool :=
  String.eqb (write_pickle args) (compare_run args)
    && (0 <? String.length (write_pickle args))%nat
  || (threads args >? 50).

(** Whether the loop that fills the pool keeps a test whose header expects
    [expected], when the success code is [success]. *)
Definition selected (args : Namespace) (success expected : Z) : bool :=
  negb (run_only_pass args && negb (expected =? success))
  && negb (run_only_xfail args && (expected =? success)).

Definition missing_compare_run : Namespace :=
  {| directory := "/home/alice/testsuite";
     kernel_regex := "^kernel\.(cu|cl)$";
     log_level := "INFO";
     write_pickle := EmptyString;
     canonical_path_prefix := "testsuite";
     compare_run := "missing.pickle";
     threads := 1;
     run_only_pass := false;
     run_only_xfail := false |}.

(** Options that select the tests expected to fail. *)
Definition only_xfail : Namespace :=
  {| directory := "/home/alice/testsuite";
     kernel_regex := "^kernel\.(cu|cl)$";
     log_level := "INFO";
     write_pickle := EmptyString;
     canonical_path_prefix := "testsuite";
     compare_run := EmptyString;
     threads := 1;
     run_only_pass := false;
     run_only_xfail := true |}.

(** A parsed kernel that expects the tool to time out. *)
Definition kernel_expecting_timeout : GPUVerifyTestKernel :=
  {| path := "/home/alice/testsuite/b/kernel.cu";
     expectedReturnCode := 7;
     gpuverifyCmdArgs := ["--use-cvc4"%string];
     regex := ∅;
     testPassed := None;
     returnedCode := None;
     gpuverifyReturnCode := None |}.
(** ** The web service's argument filter: [GPUVerifyTool.filterCmdArgs]

    From src/utils/GPUVerifyRise4Fun/gvapi.py.  The exceptions that it
    raises are plain [Exception]s with a message, and the [IndexError] of
    [source.splitlines()[0]].  [args] and [ignoredArgs] are lists of the
    caller, taken to be two objects; the function leaves its result in
    them, so the model returns what they hold at the end. *)

Inductive api_exn :=
| ApiException (message : string)
| ApiIndexError.

(** The whitelist of allowed options. *)
Definition safeOptions : list string :=
  [ "--adversarial-abstraction";
    "--array-equalities";
    "--asymmetric-asserts";
    "--atomic=(r|rw|none)";
    "--equality-abstraction";
    "--findbugs";
    "--loop-unwind=\d+";
    "--math-int";
    "--no-annotations";
    "--no-barrier-access-checks";
    "--no-benign";
    "--no-constant-write-checks";
    "--no-infer";
    "--no-loop-predicate-invariants";
    "--no-refinded-atomics";
    "--no-uniformity-analysis";
    "--only-divergence";
    "--only-intra-group";
    "--only-requires";
    "--time";
    "--staged-inference";
    "--verify";
    "--warp-sync=\d{1,3}";
    "--global_size=(\d+|\[\d+(,\d+){0,2}\])";
    "--local_size=(\d+|\[\d+(,\d+){0,2}\])";
    "--num_groups=(\d+|\[\d+(,\d+){0,2}\])";
    "--blockDim=(\d+|\[\d+(,\d+){0,2}\])";
    "--gridDim=(\d+|\[\d+(,\d+){0,2}\])" ]%string.

Section FilterCmdArgs.

(** [source.splitlines()], and [re.match(pattern, text)] as the text
    matched, [matcher.group(0)], when there is a match. *)
Variable splitlines : string -> list string.
Variable re_match : string -> string -> option string.

(** The loop [for option in safeOptions], which ends at the first option
    that matches. *)
Fixpoint first_match (options : list string) (arg : string) : option string :=
  match options with
  | [] => None
  | option :: rest =>
      match re_match (String "^" (String.app option "$")) arg with
      | Some group0 => Some group0
      | None => first_match rest arg
      end
  end.

(** The loop [for arg in foundArgs]. *)
Fixpoint filterCmdArgs_loop (foundArgs args : list string)
    (ignoredArgs : option (list string))
  : list string * option (list string) :=
  match foundArgs with
  | [] => (args, ignoredArgs)
  | arg :: rest =>
      match first_match safeOptions arg with
      | Some group0 => filterCmdArgs_loop rest (args ++ [group0]) ignoredArgs
      | None =>
          filterCmdArgs_loop rest args
            (match ignoredArgs with
             | Some ignored => Some (ignored ++ [arg])
             | None => None
             end)
      end
  end.

Definition filterCmdArgs (source : string) (args : list string)
    (ignoredArgs additionalArgs : option (list string))
  : api_exn + list string * option (list string) :=
  if negb (length args =? 0)%nat
  then inl (ApiException "Argument list must be empty")
  else
    match splitlines source with
    | [] => inl ApiIndexError
    | firstLine :: _ =>
        if negb (startswith "//" firstLine)
        then inl (ApiException "First line of source must have // style comment")
        else
          let foundArgs := String.words (slice_from 2 firstLine) in
          let foundArgs :=
            match additionalArgs with
            | Some (a :: more) => foundArgs ++ a :: more
            | _ => foundArgs
            end in
          inr (filterCmdArgs_loop foundArgs args ignoredArgs)
    end.

(** An argument that no option of the whitelist matches. *)
Definition not_whitelisted (arg : string) : bool :=
  match first_match safeOptions arg with
  | Some _ => false
  | None => true
  end.

End FilterCmdArgs.

(** An engine for worked examples that knows patterns without operators:
    the pattern [^option$] matches the text [option] only. *)
Definition exact_match (pattern text : string) : option string :=
  if String.eqb pattern (String "^" (String.app text "$")) then Some text
  else None.

(** Lines for worked examples: the text up to the first newline, if there
    is any text. *)
Definition first_line_only (source : string) : list string :=
  match source with
  | EmptyString => []
  | _ => [fst (span (fun c => negb (Ascii.eqb c newline)) source)]
  end.

(** The exceptions of a load that the [except] clauses of [openPickle]
    name. *)
Definition caught_by_openPickle (e : exn) : bool :=
  match e with
  | IOError | UnpicklingError => true
  | _ => false
  end.

(** The test of the loop over the rule lines: after its last character is
    dropped, the line starts with the comment marker and has more than two
    characters. *)
Definition is_rule_line (l : string) : bool :=
  startswith "//" (drop_last l) && (2 <? String.length (drop_last l))%nat.

(** * Properties *)

(** ** Dictionaries of a run *)

Section Comparison.

Implicit Types (d oldD newD : gmap string GPUVerifyTestKernel)
               (l : list (string * GPUVerifyTestKernel)).

Lemma filter_map_to_list_length (P : string * GPUVerifyTestKernel -> Prop)
    `{!forall x, Decision (P x)} d :
  length (filter P (map_to_list d)) = size (dom (filter P d) : gset string).
Proof.
  rewrite size_dom, <- length_map_to_list.
  apply Permutation_length, NoDup_Permutation.
  - apply NoDup_filter, NoDup_map_to_list.
  - apply NoDup_map_to_list.
  - intros [k v]. rewrite list_elem_of_filter, !elem_of_map_to_list.
    rewrite map_lookup_filter_Some. tauto.
Qed.

Lemma elem_of_filter_dom (P : string * GPUVerifyTestKernel -> Prop)
    `{!forall x, Decision (P x)} d c :
  c ∈ (dom (filter P d) : gset string) <-> exists t, d !! c = Some t /\ P (c, t).
Proof.
  rewrite elem_of_dom. unfold is_Some.
  setoid_rewrite map_lookup_filter_Some. naive_solver.
Qed.

(** The dictionary of a run holds exactly the identities of its tests. *)
Lemma make_testDictionary_lookup prefix (tests : list GPUVerifyTestKernel) c t :
  make_testDictionary prefix tests !! c = Some t ->
  In t tests /\ cPath_of prefix t = c.
Proof.
  unfold make_testDictionary.
  assert (forall d0, 
    fold_left (fun d test => <[cPath_of prefix test := test]> d) tests d0 !! c = Some t ->
    (In t tests /\ cPath_of prefix t = c) \/ d0 !! c = Some t) as H.
  { induction tests as [|x xs IH]; intros d0 Hl; simpl in *; [by right|].
    destruct (IH _ Hl) as [[? ?]|Hd]; [left; auto|].
    destruct (decide (cPath_of prefix x = c)) as [<-|Hne].
    - rewrite lookup_insert_eq in Hd. left. split; [left; congruence|congruence].
    - rewrite lookup_insert_ne in Hd by done. by right. }
  intros Hl. destruct (H _ Hl) as [?|Hd]; [done|].
  by rewrite lookup_empty in Hd.
Qed.

Lemma make_testDictionary_present prefix (tests : list GPUVerifyTestKernel) c :
  is_Some (make_testDictionary prefix tests !! c) <->
  exists t, In t tests /\ cPath_of prefix t = c.
Proof.
  split.
  - intros [t Ht]. exists t. by apply make_testDictionary_lookup.
  - unfold make_testDictionary.
    assert (forall d0,
      (exists t, In t tests /\ cPath_of prefix t = c) \/ is_Some (d0 !! c) ->
      is_Some (fold_left (fun d test => <[cPath_of prefix test := test]> d) tests d0 !! c)) as H.
    { induction tests as [|x xs IH]; intros d0 Hl; simpl in *.
      - destruct Hl as [(t & [] & _)|]; done.
      - apply IH. destruct Hl as [(t & [->|Hin] & Hc)|Hd].
        + right. rewrite <- Hc, lookup_insert_eq. eauto.
        + left. eauto.
        + right. destruct (decide (cPath_of prefix x = c)) as [<-|Hne].
          * rewrite lookup_insert_eq. eauto.
          * by rewrite lookup_insert_ne. }
    intros Hex. apply H. by left.
Qed.

(** *** The two loops of [doComparison] *)

Lemma compare_old_step newD st i :
  compare_old newD st i =
  {| changedTestCounter :=
       changedTestCounter st + (if is_changed newD i then 1 else 0);
     missingTestCounter :=
       missingTestCounter st + (if is_absent newD i then 1 else 0);
     newTestCounter := newTestCounter st;
     changeIsWorse := changeIsWorse st || is_worse newD i;
     warnings := warnings st ++ old_warning newD i |}.
Proof.
  destruct st as [ch mi nw w ws], i as [c o].
  unfold compare_old, is_worse, old_warning, is_changed, is_absent; simpl.
  destruct (newD !! c) as [n|]; simpl.
  - destruct (testPassed_ne (testPassed o) (testPassed n)); simpl.
    + f_equal; try lia. destruct (truthy (testPassed o)), w; done.
    + f_equal; try lia;
        rewrite ?orb_false_r, ?app_nil_r; reflexivity.
  - f_equal; try lia; rewrite ?orb_true_r; reflexivity.
Qed.

Lemma compare_old_fold newD l st :
  fold_left (compare_old newD) l st =
  {| changedTestCounter :=
       changedTestCounter st
       + Z.of_nat (length (filter (fun i => is_changed newD i = true) l));
     missingTestCounter :=
       missingTestCounter st
       + Z.of_nat (length (filter (fun i => is_absent newD i = true) l));
     newTestCounter := newTestCounter st;
     changeIsWorse := changeIsWorse st || existsb (is_worse newD) l;
     warnings := warnings st ++ flat_map (old_warning newD) l |}.
Proof.
  revert st. induction l as [|i l IH]; intros st; simpl.
  - destruct st; simpl. f_equal; try lia;
      [by rewrite orb_false_r|by rewrite app_nil_r].
  - rewrite IH, compare_old_step; simpl. rewrite !filter_cons.
    f_equal.
    + destruct (is_changed newD i); [rewrite decide_True by done|rewrite decide_False by done]; simpl; lia.
    + destruct (is_absent newD i); [rewrite decide_True by done|rewrite decide_False by done]; simpl; lia.
    + by rewrite orb_assoc.
    + by rewrite app_assoc.
Qed.

Lemma compare_new_step oldD st c :
  compare_new oldD st c =
  {| changedTestCounter := changedTestCounter st;
     missingTestCounter := missingTestCounter st;
     newTestCounter :=
       newTestCounter st + match oldD !! c with Some _ => 0 | None => 1 end;
     changeIsWorse := changeIsWorse st;
     warnings := warnings st ++ new_warning oldD c |}.
Proof.
  destruct st. unfold compare_new, new_warning; simpl.
  destruct (oldD !! c); simpl; f_equal; try lia. by rewrite app_nil_r.
Qed.

Lemma compare_new_fold oldD (l : list (string * GPUVerifyTestKernel)) st :
  fold_left (compare_new oldD) (map fst l) st =
  {| changedTestCounter := changedTestCounter st;
     missingTestCounter := missingTestCounter st;
     newTestCounter :=
       newTestCounter st
       + Z.of_nat (length (filter (fun i => is_absent oldD i = true) l));
     changeIsWorse := changeIsWorse st;
     warnings := warnings st ++ flat_map (new_warning oldD) (map fst l) |}.
Proof.
  revert st. induction l as [|i l IH]; intros st; simpl.
  - destruct st; simpl. f_equal; try lia. by rewrite app_nil_r.
  - rewrite IH, compare_new_step; simpl. rewrite !filter_cons.
    f_equal.
    + unfold is_absent. destruct (oldD !! i.1); simpl.
      * lia.
      * lia.
    + by rewrite app_assoc.
Qed.

Lemma doComparison_loops_eq old new prefix :
  let oldD := make_testDictionary prefix old in
  let newD := make_testDictionary prefix new in
  doComparison_loops old new prefix =
  {| changedTestCounter := Z.of_nat (size (changed_ids oldD newD));
     missingTestCounter := Z.of_nat (size (missing_ids oldD newD));
     newTestCounter := Z.of_nat (size (new_ids oldD newD));
     changeIsWorse := existsb (is_worse newD) (map_to_list oldD);
     warnings := flat_map (old_warning newD) (map_to_list oldD)
                 ++ flat_map (new_warning oldD) (map fst (map_to_list newD)) |}.
Proof.
  intros oldD newD. unfold doComparison_loops. fold oldD newD.
  rewrite compare_old_fold, compare_new_fold; simpl.
  unfold changed_ids, missing_ids, new_ids.
  rewrite <- !filter_map_to_list_length. reflexivity.
Qed.

Lemma In_map_to_list d c t : In (c, t) (map_to_list d) <-> d !! c = Some t.
Proof. rewrite <- list_elem_of_In. apply elem_of_map_to_list. Qed.

Lemma is_changed_spec newD c o :
  is_changed newD (c, o) = true <->
  exists n, newD !! c = Some n /\ testPassed o <> testPassed n.
Proof.
  unfold is_changed, testPassed_ne; simpl. destruct (newD !! c) as [n|].
  - rewrite negb_true_iff, bool_decide_eq_false. naive_solver.
  - naive_solver.
Qed.

Lemma is_absent_spec d c o : is_absent d (c, o) = true <-> d !! c = None.
Proof. unfold is_absent; simpl. destruct (d !! c); naive_solver. Qed.

Lemma truthy_spec a : truthy a = true <-> a = Some true.
Proof. destruct a as [[]|]; naive_solver. Qed.

Lemma In_old_warning newD oldD w :
  In w (flat_map (old_warning newD) (map_to_list oldD)) <->
  exists c o, oldD !! c = Some o /\
    ((w = ResultChanged c /\ is_changed newD (c, o) = true) \/
     (w = MissingTest c /\ is_absent newD (c, o) = true)).
Proof.
  rewrite in_flat_map. split.
  - intros ([c o] & Hin & Hw). apply In_map_to_list in Hin.
    exists c, o. split; [done|]. unfold old_warning in Hw.
    destruct (is_changed newD (c, o)); simpl in Hw; [naive_solver|].
    destruct (is_absent newD (c, o)); simpl in Hw; naive_solver.
  - intros (c & o & Hl & Hw). exists (c, o). rewrite In_map_to_list.
    split; [done|]. unfold old_warning.
    destruct Hw as [[-> ->]|[-> Ha]]; simpl; [by left|].
    rewrite Ha. destruct (is_changed newD (c, o)) eqn:Hc; [|by left].
    apply is_changed_spec in Hc as (n & Hn & _).
    apply is_absent_spec in Ha. congruence.
Qed.

Lemma In_new_warning oldD newD w :
  In w (flat_map (new_warning oldD) (map fst (map_to_list newD))) <->
  exists c, is_Some (newD !! c) /\ oldD !! c = None /\ w = NewTest c.
Proof.
  rewrite in_flat_map. setoid_rewrite in_map_iff. split.
  - intros (c & ([c' n] & <- & Hin) & Hw). apply In_map_to_list in Hin.
    simpl in Hw. exists c'. unfold new_warning in Hw.
    destruct (oldD !! c'); simpl in Hw; naive_solver.
  - intros (c & [n Hn] & Ho & ->). exists c. split.
    + exists (c, n). by rewrite In_map_to_list.
    + unfold new_warning. rewrite Ho. by left.
Qed.

Lemma existsb_is_worse newD oldD :
  existsb (is_worse newD) (map_to_list oldD) = true <->
  (exists c o n, oldD !! c = Some o /\ newD !! c = Some n /\
     testPassed o = Some true /\ testPassed n <> Some true) \/
  (exists c, is_Some (oldD !! c) /\ newD !! c = None).
Proof.
  rewrite existsb_exists. split.
  - intros ([c o] & Hin & Hw). apply In_map_to_list in Hin.
    unfold is_worse in Hw. apply orb_true_iff in Hw as [Ha|Hc].
    + right. exists c. apply is_absent_spec in Ha. eauto.
    + left. apply andb_true_iff in Hc as [Hc Ht].
      apply is_changed_spec in Hc as (n & Hn & Hne).
      apply truthy_spec in Ht. simpl in Ht.
      exists c, o, n. repeat split; try done. congruence.
  - intros [(c & o & n & Ho & Hn & Ht & Hne)|(c & [o Ho] & Hn)].
    + exists (c, o). rewrite In_map_to_list. split; [done|].
      unfold is_worse. apply orb_true_iff. right. apply andb_true_iff. split.
      * apply is_changed_spec. exists n. split; [done|congruence].
      * by apply truthy_spec.
    + exists (c, o). rewrite In_map_to_list. split; [done|].
      unfold is_worse. apply orb_true_iff. left. by apply is_absent_spec.
Qed.

End Comparison.

(** ** The verdict of a comparison *)

(** C2, as the code has it.  The verdict is regression (1) exactly when some
    identity of both records passed in the old one and does not in the new
    one (there it failed or was not executed), or some identity of the old
    record is absent from the new one; it is equal (0) exactly when the
    changed, missing and new counts are all zero; otherwise it is improvement
    (-1).  The changed entries are exactly the identities of both records
    whose [testPassed] values differ, and the counter counts them. *)
Theorem doComparison_verdict (old new : list GPUVerifyTestKernel) (prefix : string) :
  let oldD := make_testDictionary prefix old in
  let newD := make_testDictionary prefix new in
  let st := doComparison_loops old new prefix in
  (doComparison old new prefix = 1 <->
     (exists c o n, oldD !! c = Some o /\ newD !! c = Some n /\
        testPassed o = Some true /\ testPassed n <> Some true) \/
     (exists c, is_Some (oldD !! c) /\ newD !! c = None)) /\
  (doComparison old new prefix = 0 <->
     changedTestCounter st = 0 /\ missingTestCounter st = 0 /\
     newTestCounter st = 0) /\
  (doComparison old new prefix <> 1 -> doComparison old new prefix <> 0 ->
   doComparison old new prefix = -1) /\
  (forall c, In (ResultChanged c) (warnings st) <->
     exists o n, oldD !! c = Some o /\ newD !! c = Some n /\
       testPassed o <> testPassed n) /\
  (forall c, c ∈ changed_ids oldD newD <->
     exists o n, oldD !! c = Some o /\ newD !! c = Some n /\
       testPassed o <> testPassed n) /\
  changedTestCounter st = Z.of_nat (size (changed_ids oldD newD)).
Proof.
  intros oldD newD st.
  assert (Hst : st = doComparison_loops old new prefix) by reflexivity.
  rewrite doComparison_loops_eq in Hst. fold oldD newD in Hst.
  assert (Hworse : changeIsWorse st = true <->
     (exists c o n, oldD !! c = Some o /\ newD !! c = Some n /\
        testPassed o = Some true /\ testPassed n <> Some true) \/
     (exists c, is_Some (oldD !! c) /\ newD !! c = None)).
  { rewrite Hst; simpl. apply existsb_is_worse. }
  assert (Hmiss : (exists c, is_Some (oldD !! c) /\ newD !! c = None) ->
                  missingTestCounter st <> 0).
  { intros (c & [o Ho] & Hn). rewrite Hst; simpl.
    assert (c ∈ missing_ids oldD newD) as Hin.
    { unfold missing_ids. apply elem_of_filter_dom. exists o. split; [done|].
      by apply is_absent_spec. }
    intros Hz. assert (size (missing_ids oldD newD) = 0%nat) as Hs by lia.
    apply size_empty_inv in Hs. set_solver. }
  assert (Hch : forall c, c ∈ changed_ids oldD newD <->
     exists o n, oldD !! c = Some o /\ newD !! c = Some n /\
       testPassed o <> testPassed n).
  { intros c. unfold changed_ids. rewrite elem_of_filter_dom.
    setoid_rewrite is_changed_spec. naive_solver. }
  assert (Hchanged : (exists c o n, oldD !! c = Some o /\ newD !! c = Some n /\
        testPassed o = Some true /\ testPassed n <> Some true) ->
        changedTestCounter st <> 0).
  { intros (c & o & n & Ho & Hn & Ht & Hne). rewrite Hst; simpl.
    assert (c ∈ changed_ids oldD newD) as Hin.
    { apply Hch. exists o, n. repeat split; try done. congruence. }
    intros Hz. assert (size (changed_ids oldD newD) = 0%nat) as Hs by lia.
    apply size_empty_inv in Hs. set_solver. }
  unfold doComparison. fold st.
  repeat split.
  - destruct (changeIsWorse st); [intros _; by apply Hworse|].
    destruct (_ && _); discriminate.
  - intros H. apply Hworse in H. by rewrite H.
  - destruct (changeIsWorse st); [discriminate|].
    destruct (changedTestCounter st =? 0) eqn:E; [|simpl; discriminate]. lia.
  - destruct (changeIsWorse st); [discriminate|].
    destruct (changedTestCounter st =? 0) eqn:E1; [|simpl; discriminate].
    destruct (missingTestCounter st =? 0) eqn:E2; [|simpl; discriminate]. lia.
  - destruct (changeIsWorse st); [discriminate|].
    destruct (changedTestCounter st =? 0) eqn:E1; [|simpl; discriminate].
    destruct (missingTestCounter st =? 0) eqn:E2; [|simpl; discriminate].
    destruct (newTestCounter st =? 0) eqn:E3; [|simpl; discriminate]. lia.
  - intros (H1 & H2 & H3).
    destruct (changeIsWorse st) eqn:Hw.
    + exfalso. destruct (proj1 Hworse eq_refl) as [H|H];
        [by apply Hchanged in H|by apply Hmiss in H].
    + rewrite H1, H2, H3. reflexivity.
  - destruct (changeIsWorse st); [done|].
    destruct (_ && _); done.
  - rewrite Hst; simpl. rewrite in_app_iff, In_old_warning, In_new_warning.
    setoid_rewrite is_changed_spec. naive_solver.
  - rewrite Hst; simpl. rewrite in_app_iff, In_old_warning, In_new_warning.
    setoid_rewrite is_changed_spec. naive_solver.
  - apply Hch.
  - apply Hch.
  - rewrite Hst. reflexivity.
Qed.

(** C2 as stated fails: an old test that passed and that the new run did
    not execute gives the verdict regression, although no changed entry went
    from passed to failed and no test is missing. *)
Lemma regression_without_failure :
  let oldD := make_testDictionary "testsuite" [kernel_passed] in
  let newD := make_testDictionary "testsuite" [kernel_unexecuted] in
  doComparison [kernel_passed] [kernel_unexecuted] "testsuite" = 1 /\
  ~ (exists c o n, oldD !! c = Some o /\ newD !! c = Some n /\
       testPassed o = Some true /\ testPassed n = Some false) /\
  ~ (exists c, is_Some (oldD !! c) /\ newD !! c = None).
Proof.
  intros oldD newD.
  assert (Hold : oldD = {[ "testsuite/a/kernel.cl"%string := kernel_passed ]})
    by reflexivity.
  assert (Hnew : newD = {[ "testsuite/a/kernel.cl"%string := kernel_unexecuted ]})
    by reflexivity.
  split; [by vm_compute|]. split.
  - intros (c & o & n & Ho & Hn & _ & Hf). rewrite Hnew in Hn.
    apply lookup_singleton_Some in Hn as [_ <-]. discriminate.
  - intros (c & [o Ho] & Hn). rewrite Hold in Ho. rewrite Hnew in Hn.
    apply lookup_singleton_Some in Ho as [<- _].
    by rewrite lookup_singleton_eq in Hn.
Qed.

(** ** Missing entries *)

(** C3, as the code has it.  A missing entry is recorded exactly for each
    identity of the old record that no test of the new record has, whether
    the old test passed or not, and the counter counts these identities. *)
Theorem missing_entries (old new : list GPUVerifyTestKernel) (prefix : string) :
  let oldD := make_testDictionary prefix old in
  let newD := make_testDictionary prefix new in
  let st := doComparison_loops old new prefix in
  (forall c, In (MissingTest c) (warnings st) <->
     (exists t, In t old /\ cPath_of prefix t = c) /\
     ~ (exists t, In t new /\ cPath_of prefix t = c)) /\
  (forall c, c ∈ missing_ids oldD newD <->
     is_Some (oldD !! c) /\ newD !! c = None) /\
  missingTestCounter st = Z.of_nat (size (missing_ids oldD newD)).
Proof.
  intros oldD newD st.
  assert (Hst : st = doComparison_loops old new prefix) by reflexivity.
  rewrite doComparison_loops_eq in Hst. fold oldD newD in Hst.
  repeat split.
  - rewrite Hst in H; simpl in H.
    rewrite in_app_iff, In_old_warning, In_new_warning in H.
    destruct H as [(c' & o & Ho & [[? _]|[[= <-] _]])|(c' & _ & _ & ?)];
      try discriminate.
    apply make_testDictionary_present. unfold oldD in Ho. eauto.
  - rewrite Hst in H; simpl in H.
    rewrite in_app_iff, In_old_warning, In_new_warning in H.
    destruct H as [(c' & o & Ho & [[? _]|[[= <-] Ha]])|(c' & _ & _ & ?)];
      try discriminate.
    apply is_absent_spec in Ha. intros Hex.
    apply make_testDictionary_present in Hex. fold newD in Hex.
    rewrite Ha in Hex. by destruct Hex.
  - intros [Hold Hnew]. rewrite Hst; simpl.
    rewrite in_app_iff, In_old_warning. left.
    apply make_testDictionary_present in Hold as [o Ho]. fold oldD in Ho.
    exists c, o. split; [done|]. right. split; [done|].
    apply is_absent_spec. destruct (newD !! c) as [n|] eqn:Hn; [|done].
    exfalso. apply Hnew. apply make_testDictionary_present.
    fold newD. rewrite Hn. eauto.
  - apply elem_of_filter_dom in H as (t & Ht & _). eauto.
  - apply elem_of_filter_dom in H as (t & _ & Ha). by apply is_absent_spec in Ha.
  - intros [[t Ht] Hn]. apply elem_of_filter_dom. exists t. split; [done|].
    by apply is_absent_spec.
  - rewrite Hst. reflexivity.
Qed.

(** C3 as stated fails: an old test that failed and that the new record
    lacks is reported missing and counted. *)
Lemma failed_test_reported_missing :
  let st := doComparison_loops [kernel_failed] [] "testsuite" in
  testPassed kernel_failed = Some false /\
  make_testDictionary "testsuite" [] !! cPath_of "testsuite" kernel_failed = None /\
  In (MissingTest (cPath_of "testsuite" kernel_failed)) (warnings st) /\
  missingTestCounter st = 1.
Proof. vm_compute. repeat split; auto. Qed.

(** ** The registry after [static_init] *)

Lemma lookup_attr_setattr name v attrs :
  lookup_attr name (setattr name v attrs) = Some v.
Proof.
  induction attrs as [|[n w] rest IH]; simpl.
  - by rewrite String.eqb_refl.
  - destruct (String.compare name n) eqn:E; simpl.
    + by rewrite String.eqb_refl.
    + by rewrite String.eqb_refl.
    + destruct (String.eqb name n) eqn:En; [|done].
      apply String.eqb_eq in En. subst n.
      pose proof (String.compare_antisym name name) as Ha.
      rewrite E in Ha. discriminate.
Qed.

Lemma lookup_attr_setattr_ne name name' v attrs :
  name' <> name ->
  lookup_attr name' (setattr name v attrs) = lookup_attr name' attrs.
Proof.
  intros Hne. induction attrs as [|[n w] rest IH]; simpl.
  - apply String.eqb_neq in Hne. by rewrite Hne.
  - destruct (String.compare name n) eqn:E; simpl.
    + apply String.compare_eq_iff in E. subst n.
      apply String.eqb_neq in Hne. by rewrite Hne.
    + apply String.eqb_neq in Hne. by rewrite Hne.
    + by rewrite IH.
Qed.

Lemma In_setattr name v attrs n c :
  In (n, c) (setattr name v attrs) -> (n, c) = (name, v) \/ In (n, c) attrs.
Proof.
  induction attrs as [|[m w] rest IH]; simpl.
  - intros [H|[]]. left. congruence.
  - destruct (String.compare name m); simpl; intros [H|H];
      try tauto; try (left; congruence);
      try (destruct (IH H); tauto).
Qed.

Lemma In_setattr_keep name v attrs n c :
  n <> name -> In (n, c) attrs -> In (n, c) (setattr name v attrs).
Proof.
  intros Hne. induction attrs as [|[m w] rest IH]; simpl; [done|].
  intros [H|H].
  - destruct (String.compare name m) eqn:E; simpl; try tauto.
    apply String.compare_eq_iff in E. congruence.
  - destruct (String.compare name m); simpl; tauto.
Qed.

Lemma In_setattr_new name v attrs : In (name, v) (setattr name v attrs).
Proof.
  induction attrs as [|[m w] rest IH]; simpl; [tauto|].
  destruct (String.compare name m); simpl; tauto.
Qed.

Lemma In_public attrs n c :
  In (n, c) (public attrs) <-> In (n, c) attrs /\ startswith "_" n = false.
Proof.
  unfold public. rewrite <- !list_elem_of_In, list_elem_of_filter. simpl.
  destruct (startswith "_" n); simpl; naive_solver.
Qed.

Lemma find_largest_ge first nums :
  first <= find_largest first nums /\
  forall x, In x nums -> x <= find_largest first nums.
Proof.
  unfold find_largest. revert first.
  induction nums as [|y ys IH]; intros first; simpl; [split; [lia|tauto]|].
  destruct (IH (if y >? first then y else first)) as [H1 H2].
  split.
  - destruct (y >? first) eqn:E; lia.
  - intros x [->|Hx]; [|by apply H2].
    destruct (x >? first) eqn:E; lia.
Qed.

Lemma reverse_mapping_lookup attrs c n :
  reverse_mapping attrs !! c = Some n -> In (n, c) attrs.
Proof.
  unfold reverse_mapping.
  assert (forall m0 : gmap Z string,
            fold_left (fun m nv => <[snd nv := fst nv]> m) attrs m0 !! c = Some n ->
            In (n, c) attrs \/ m0 !! c = Some n) as H.
  { induction attrs as [|[n' c'] rest IH]; intros m0 Hl; simpl in *; [tauto|].
    destruct (IH _ Hl) as [?|Hm]; [tauto|].
    destruct (decide (c' = c)) as [->|Hne].
    - rewrite lookup_insert_eq in Hm. left. left. congruence.
    - rewrite lookup_insert_ne in Hm by done. tauto. }
  intros Hl. destruct (H _ Hl) as [?|Hm]; [done|]. by rewrite lookup_empty in Hm.
Qed.

Lemma reverse_mapping_present attrs c n :
  In (n, c) attrs -> is_Some (reverse_mapping attrs !! c).
Proof.
  unfold reverse_mapping.
  assert (forall m0 : gmap Z string, In (n, c) attrs \/ is_Some (m0 !! c) ->
            is_Some (fold_left (fun m nv => <[snd nv := fst nv]> m) attrs m0 !! c)) as H.
  { induction attrs as [|[n' c'] rest IH]; intros m0 Hl; simpl in *; [tauto|].
    apply IH. destruct Hl as [[[= -> ->]|?]|Hm]; [| tauto |].
    - right. rewrite lookup_insert_eq. eauto.
    - right. destruct (decide (c' = c)) as [->|Hne].
      + rewrite lookup_insert_eq. eauto.
      + by rewrite lookup_insert_ne. }
  intros Hin. apply H. tauto.
Qed.

(** What [static_init] establishes: the sentinel is an attribute of the
    class, it is above every code of [ErrorCodes], the attributes of
    [ErrorCodes] are still there, and the reverse mapping knows exactly the
    codes of the class. *)
Lemma static_init_spec base cls :
  static_init base = Ok cls ->
  exists r,
    REGEX_MISMATCH_ERROR cls = Ok r /\
    (forall n c, In (n, c) (public base) -> c < r) /\
    (forall name, name <> "REGEX_MISMATCH_ERROR"%string ->
       getattr (attributes cls) name = getattr base name) /\
    (forall c n, errorCodeToString cls !! c = Some n ->
       (n = "REGEX_MISMATCH_ERROR"%string /\ c = r) \/ In (n, c) (public base)) /\
    (forall n c, In (n, c) (public base) -> n <> "REGEX_MISMATCH_ERROR"%string ->
       is_Some (errorCodeToString cls !! c)) /\
    is_Some (errorCodeToString cls !! r).
Proof.
  unfold static_init. destruct (public base) as [|[n0 first] rest] eqn:Hpub; [done|].
  intros [= <-]. eexists. unfold REGEX_MISMATCH_ERROR, getattr; simpl.
  rewrite lookup_attr_setattr. split; [reflexivity|].
  destruct (find_largest_ge first (map snd ((n0, first) :: rest))) as [_ Hmax].
  repeat split.
  - intros n c Hin.
    specialize (Hmax c (in_map snd ((n0, first) :: rest) (n, c) Hin)).
    simpl in Hmax. lia.
  - intros name Hne. by rewrite lookup_attr_setattr_ne.
  - intros c n Hl. apply reverse_mapping_lookup, In_public in Hl as [Hin Hp].
    apply In_setattr in Hin as [[= -> ->]|Hin]; [by left|].
    right. change (In (n, c) ((n0, first) :: rest)).
    rewrite <- Hpub. by apply In_public.
  - intros n c Hin Hne. change (In (n, c) ((n0, first) :: rest)) in Hin.
    rewrite <- Hpub in Hin. apply In_public in Hin as [Hin Hp].
    apply (reverse_mapping_present _ _ n). apply In_public. split; [|done].
    by apply In_setattr_keep.
  - apply (reverse_mapping_present _ _ "REGEX_MISMATCH_ERROR"%string).
    apply In_public. split; [apply In_setattr_new|reflexivity].
Qed.

(** ** Test execution *)

Section RunProperties.

Variable compiled : Type.
Variable re_compile : list re_flag -> string -> compiled + string.
Variable re_search : compiled -> string -> bool.
Variable cls : GPUVerifyErrorCodes.

Implicit Types (rules : gmap string (option bool)) (keys : list string).

Local Abbreviation run := (run compiled re_compile re_search cls).
Local Abbreviation run_regexes := (run_regexes compiled re_compile re_search).
Local Abbreviation run_regex := (run_regex compiled re_compile re_search).

Lemma run_regexes_spec stdout keys rules rules' :
  run_regexes stdout rules keys = Ok rules' ->
  (forall k, In k keys ->
     exists matcher, re_compile [MULTILINE] k = inl matcher /\
       rules' !! k = Some (Some (re_search matcher stdout))) /\
  (forall k, ~ In k keys -> rules' !! k = rules !! k).
Proof.
  revert rules. induction keys as [|k0 keys IH]; intros rules; simpl.
  - intros [= <-]. split; [intros k []|done].
  - unfold run_regex at 1.
    destruct (re_compile [MULTILINE] k0) as [matcher|e] eqn:Hc; [|done].
    set (rules1 := <[k0 := Some (re_search matcher stdout)]> rules).
    assert (Hstep : (if negb (re_search matcher stdout)
                     then Ok (<[k0 := Some false]> rules)
                     else Ok (<[k0 := Some true]> rules)) = Ok rules1).
    { unfold rules1. by destruct (re_search matcher stdout). }
    rewrite Hstep. simpl. intros Hrest.
    destruct (IH _ Hrest) as [IH1 IH2]. split.
    + intros k [<-|Hin].
      * destruct (in_dec String.string_dec k0 keys) as [Hin|Hnin]; [by apply IH1|].
        exists matcher. split; [done|]. rewrite IH2 by done.
        unfold rules1. by rewrite lookup_insert_eq.
      * by apply IH1.
    + intros k Hnin. rewrite IH2 by tauto.
      unfold rules1. rewrite lookup_insert_ne; [done|]. tauto.
Qed.

Lemma run_regexes_total stdout keys rules :
  (forall k, In k keys -> exists matcher, re_compile [MULTILINE] k = inl matcher) ->
  exists rules', run_regexes stdout rules keys = Ok rules'.
Proof.
  revert rules. induction keys as [|k0 keys IH]; intros rules Hv; simpl; [eauto|].
  unfold run_regex at 1.
  destruct (Hv k0 (or_introl eq_refl)) as [matcher ->].
  destruct (re_search matcher stdout); simpl; apply IH; intros k Hk;
    apply Hv; by right.
Qed.

Lemma In_keys rules k :
  In k (map fst (map_to_list rules)) <-> is_Some (rules !! k).
Proof.
  rewrite in_map_iff. split.
  - intros ([k' v] & <- & Hin). apply list_elem_of_In, elem_of_map_to_list in Hin.
    simpl. eauto.
  - intros [v Hv]. exists (k, v). split; [done|].
    by apply list_elem_of_In, elem_of_map_to_list.
Qed.

Lemma False_in_values_spec rules :
  False_in_values rules = true <-> exists k, rules !! k = Some (Some false).
Proof.
  unfold False_in_values. rewrite existsb_exists. split.
  - intros ([k v] & Hin & Hv). apply list_elem_of_In, elem_of_map_to_list in Hin.
    exists k. simpl in Hv. destruct v as [[]|]; try discriminate. done.
  - intros [k Hk]. exists (k, Some false). split; [|done].
    by apply list_elem_of_In, elem_of_map_to_list.
Qed.

(** The shape of every completed [run]. *)
Lemma run_inv self returncode stdout t' :
  run self returncode stdout = Ok t' ->
  exists rules returned,
    is_Some (errorCodeToString cls !! returncode) /\
    (if returncode =? expectedReturnCode self
     then run_regexes stdout (regex self) (map fst (map_to_list (regex self)))
     else Ok (regex self)) = Ok rules /\
    (if False_in_values rules then REGEX_MISMATCH_ERROR cls
     else Ok returncode) = Ok returned /\
    t' = {| path := path self;
            expectedReturnCode := expectedReturnCode self;
            gpuverifyCmdArgs := gpuverifyCmdArgs self;
            regex := rules;
            testPassed := Some (returned =? expectedReturnCode self);
            returnedCode := Some returned;
            gpuverifyReturnCode := Some returncode |}.
Proof.
  unfold run, errorCodeToString_get.
  destruct (errorCodeToString cls !! returncode) as [s|] eqn:Hs; [simpl|done].
  destruct (if returncode =? expectedReturnCode self then _ else _)
    as [rules|] eqn:Hrules; [simpl|done].
  destruct (if False_in_values rules then _ else _)
    as [returned|] eqn:Hret; [simpl|done].
  intros H. exists rules, returned. repeat split; eauto.
  destruct (returned =? expectedReturnCode self); simpl in H.
  - congruence.
  - destruct (errorCodeToString cls !! returned); [simpl in H|done].
    destruct (errorCodeToString cls !! expectedReturnCode self); [simpl in H|done].
    congruence.
Qed.

Lemma run_completes base self n n' returncode stdout :
  static_init base = Ok cls ->
  In (n, returncode) (public base) -> n <> "REGEX_MISMATCH_ERROR"%string ->
  In (n', expectedReturnCode self) (public base) ->
  n' <> "REGEX_MISMATCH_ERROR"%string ->
  (forall k, is_Some (regex self !! k) ->
     exists matcher, re_compile [MULTILINE] k = inl matcher) ->
  exists t', run self returncode stdout = Ok t'.
Proof.
  intros Hinit Hrc Hn Hexp Hn' Hvalid.
  destruct (static_init_spec _ _ Hinit) as (r & Hr & _ & _ & _ & Hpres & Hrp).
  destruct (Hpres _ _ Hrc Hn) as [s Hs].
  destruct (Hpres _ _ Hexp Hn') as [s' Hs'].
  destruct Hrp as [sr Hsr].
  unfold run, errorCodeToString_get. rewrite Hs; simpl.
  assert (exists rules,
    (if returncode =? expectedReturnCode self
     then run_regexes stdout (regex self) (map fst (map_to_list (regex self)))
     else Ok (regex self)) = Ok rules) as [rules ->].
  { destruct (returncode =? expectedReturnCode self); [|eauto].
    apply run_regexes_total. intros k Hk. apply Hvalid. by apply In_keys. }
  simpl. rewrite Hr.
  destruct (False_in_values rules); simpl.
  - destruct (r =? expectedReturnCode self); simpl; [eauto|].
    rewrite Hsr, Hs'; simpl. eauto.
  - destruct (returncode =? expectedReturnCode self); simpl; [eauto|].
    rewrite Hs, Hs'; simpl. eauto.
Qed.

(** C1.  After a test whose rules were unevaluated has been run: every rule
    is evaluated, against the pattern compiled in multi-line mode, exactly
    when the exit code of the tool is the expected one, and is still unknown
    otherwise; the outcome code is the sentinel if some rule is unmatched and
    the exit code of the tool otherwise; and the test passed exactly when
    the outcome code is the expected one. *)
Theorem run_outcome self returncode stdout t' :
  unevaluated self ->
  run self returncode stdout = Ok t' ->
  (forall k, is_Some (regex t' !! k) <-> is_Some (regex self !! k)) /\
  (forall k status, regex t' !! k = Some status ->
     (status <> None <-> returncode = expectedReturnCode self)) /\
  (returncode = expectedReturnCode self ->
   forall k, is_Some (regex self !! k) ->
     exists matcher, re_compile [MULTILINE] k = inl matcher /\
       regex t' !! k = Some (Some (re_search matcher stdout))) /\
  (returncode <> expectedReturnCode self -> regex t' = regex self) /\
  gpuverifyReturnCode t' = Some returncode /\
  expectedReturnCode t' = expectedReturnCode self /\
  ((exists k, regex t' !! k = Some (Some false)) ->
     exists mismatch, REGEX_MISMATCH_ERROR cls = Ok mismatch /\
       returnedCode t' = Some mismatch) /\
  (~ (exists k, regex t' !! k = Some (Some false)) ->
     returnedCode t' = Some returncode) /\
  (testPassed t' = Some true <->
     returnedCode t' = Some (expectedReturnCode self)) /\
  (testPassed t' = Some true \/ testPassed t' = Some false).
Proof.
  intros Hfresh Hrun.
  destruct (run_inv _ _ _ _ Hrun) as (rules & returned & _ & Hrules & Hret & ->).
  simpl.
  assert (Hdom : forall k, is_Some (rules !! k) <-> is_Some (regex self !! k)).
  { intros k. destruct (returncode =? expectedReturnCode self).
    - apply run_regexes_spec in Hrules as [H1 H2].
      destruct (in_dec String.string_dec k (map fst (map_to_list (regex self))))
        as [Hin|Hnin].
      + destruct (H1 _ Hin) as (m & _ & ->). apply In_keys in Hin. naive_solver.
      + by rewrite H2.
    - by injection Hrules as <-. }
  assert (Hfalse : False_in_values rules = true <->
                   exists k, rules !! k = Some (Some false))
    by apply False_in_values_spec.
  repeat split.
  - apply Hdom.
  - apply Hdom.
  - intros Hst. destruct (returncode =? expectedReturnCode self) eqn:E; [lia|].
    injection Hrules as <-. apply Hfresh in H. done.
  - intros ->. rewrite Z.eqb_refl in Hrules.
    apply run_regexes_spec in Hrules as [H1 _].
    destruct (H1 k) as (m & _ & Hk).
    { apply In_keys, Hdom. eauto. }
    congruence.
  - intros ->. rewrite Z.eqb_refl in Hrules.
    apply run_regexes_spec in Hrules as [H1 _].
    intros k Hk. apply H1. by apply In_keys.
  - intros Hne. apply Z.eqb_neq in Hne. rewrite Hne in Hrules. congruence.
  - intros Hex. apply Hfalse in Hex. rewrite Hex in Hret. eauto.
  - intros Hnex. destruct (False_in_values rules); [|congruence].
    exfalso. apply Hnex. by apply Hfalse.
  - intros [= H]. apply Z.eqb_eq in H. congruence.
  - intros [= ->]. by rewrite Z.eqb_refl.
  - destruct (returned =? expectedReturnCode self); tauto.
Qed.

(** C8, as the code has it.  The sentinel that [static_init] computes is
    above, hence different from, every code of [ErrorCodes], the exit codes
    that the tool gives itself.  But it is a key of the reverse dictionary,
    so [run] accepts a process that exits with the value of the sentinel:
    in a completed run the outcome code is the sentinel exactly when some
    rule is unmatched or the process itself exited with that value.  It
    indicates an unmatched rule without ambiguity when the exit code is one
    of [ErrorCodes]. *)
Theorem sentinel_outcome base :
  static_init base = Ok cls ->
  exists mismatch,
    REGEX_MISMATCH_ERROR cls = Ok mismatch /\
    (forall n c, In (n, c) (public base) -> c < mismatch) /\
    (forall n c, In (n, c) (public base) -> c <> mismatch) /\
    is_Some (errorCodeToString cls !! mismatch) /\
    (forall self returncode stdout t',
       run self returncode stdout = Ok t' ->
       (returnedCode t' = Some mismatch <->
        (exists k, regex t' !! k = Some (Some false)) \/
        returncode = mismatch)) /\
    (forall self n returncode stdout t',
       In (n, returncode) (public base) ->
       run self returncode stdout = Ok t' ->
       (returnedCode t' = Some mismatch <->
        exists k, regex t' !! k = Some (Some false))).
Proof.
  intros Hinit.
  destruct (static_init_spec _ _ Hinit) as (r & Hr & Hlt & _ & _ & _ & Hsome).
  assert (Hany : forall self returncode stdout t',
    run self returncode stdout = Ok t' ->
    (returnedCode t' = Some r <->
     (exists k, regex t' !! k = Some (Some false)) \/ returncode = r)).
  { intros self returncode stdout t' Hrun.
    destruct (run_inv _ _ _ _ Hrun) as (rules & returned & _ & _ & Hret & ->).
    simpl. destruct (False_in_values rules) eqn:E.
    - rewrite Hr in Hret. injection Hret as <-. split; [|done].
      intros _. left. by apply False_in_values_spec.
    - injection Hret as <-. split.
      + intros [= ->]. by right.
      + intros [Hex| ->]; [|done].
        apply False_in_values_spec in Hex. congruence. }
  exists r. split; [done|]. split; [done|]. split.
  { intros n c Hin. specialize (Hlt _ _ Hin). lia. }
  split; [done|]. split; [exact Hany|].
  intros self n returncode stdout t' Hin Hrun.
  rewrite (Hany _ _ _ _ Hrun). split; [|by left].
  intros [Hex| ->]; [done|]. specialize (Hlt _ _ Hin). lia.
Qed.

End RunProperties.

(** [run_outcome] at work: the kernel expects success and an output line
    saying [Verified]; the tool exits with success but prints something
    else, so the outcome is the sentinel and the test fails. *)
Lemma run_outcome_witness :
  unevaluated kernel_with_rule /\
  run string literal_compile literal_search sample_cls
      kernel_with_rule 0 "error: possible data race" =
    Ok {| path := path kernel_with_rule;
          expectedReturnCode := 0;
          gpuverifyCmdArgs := gpuverifyCmdArgs kernel_with_rule;
          regex := {[ "Verified"%string := Some false ]};
          testPassed := Some false;
          returnedCode := Some 10;
          gpuverifyReturnCode := Some 0 |} /\
  REGEX_MISMATCH_ERROR sample_cls = Ok 10.
Proof.
  assert (Hfresh : unevaluated kernel_with_rule).
  { intros k status Hk. simpl in Hk.
    apply lookup_singleton_Some in Hk. symmetry. apply Hk. }
  assert (Hrun : run string literal_compile literal_search sample_cls
                   kernel_with_rule 0 "error: possible data race" =
    Ok {| path := path kernel_with_rule;
          expectedReturnCode := 0;
          gpuverifyCmdArgs := gpuverifyCmdArgs kernel_with_rule;
          regex := {[ "Verified"%string := Some false ]};
          testPassed := Some false;
          returnedCode := Some 10;
          gpuverifyReturnCode := Some 0 |}) by (vm_compute; reflexivity).
  split; [exact Hfresh|]. split; [exact Hrun|].
  destruct (run_outcome _ _ _ _ _ _ _ _ Hfresh Hrun)
    as (_ & _ & _ & _ & _ & _ & Hmis & _).
  destruct Hmis as (mismatch & Hm & Hret).
  - exists "Verified"%string. apply lookup_singleton_eq.
  - simpl in Hret. congruence.
Defined.

(** [sentinel_outcome] at work: the kernel expects an output line saying
    [Verified]; the tool exits with success, a code of the registry, and
    the outcome code is the sentinel, so some rule is unmatched. *)
Lemma sentinel_outcome_witness :
  static_init sample_ErrorCodes = Ok sample_cls /\
  exists mismatch t',
    REGEX_MISMATCH_ERROR sample_cls = Ok mismatch /\
    (forall n c, In (n, c) (public sample_ErrorCodes) -> c <> mismatch) /\
    run string literal_compile literal_search sample_cls
      kernel_with_rule 0 "error: possible data race" = Ok t' /\
    returnedCode t' = Some 10 /\
    (returnedCode t' = Some mismatch ->
     exists k, regex t' !! k = Some (Some false)).
Proof.
  assert (Hinit : static_init sample_ErrorCodes = Ok sample_cls) by reflexivity.
  split; [exact Hinit|].
  destruct (sentinel_outcome string literal_compile literal_search
              sample_cls sample_ErrorCodes Hinit)
    as (m & Hm & _ & Hne & _ & _ & Htool).
  exists m. eexists. split; [exact Hm|]. split; [exact Hne|].
  split; [reflexivity|]. split; [reflexivity|].
  apply (Htool kernel_with_rule "SUCCESS"%string 0
           "error: possible data race"%string).
  - simpl. tauto.
  - reflexivity.
Defined.

(** C8 as stated fails: the sample registry makes 10 the sentinel; a
    process that exits with 10 completes the run with the sentinel as its
    outcome code, although the test has no rule at all, and so none that
    is unmatched. *)
Lemma exit_code_equal_to_sentinel :
  static_init sample_ErrorCodes = Ok sample_cls /\
  REGEX_MISMATCH_ERROR sample_cls = Ok 10 /\
  exists t',
    run string literal_compile literal_search sample_cls
      kernel_unexecuted 10 EmptyString = Ok t' /\
    gpuverifyReturnCode t' = Some 10 /\
    returnedCode t' = Some 10 /\
    ~ (exists k, regex t' !! k = Some (Some false)).
Proof.
  split; [reflexivity|]. split; [reflexivity|].
  eexists. split; [reflexivity|]. split; [reflexivity|]. split; [reflexivity|].
  simpl. intros [k Hk]. by rewrite lookup_empty in Hk.
Qed.

(** ** The header parser *)

Section ParserProperties.

Variable compiled : Type.
Variable re_compile : list re_flag -> string -> compiled + string.
Variable dirname : string -> string.
Variable cls : GPUVerifyErrorCodes.

Implicit Types (rules : gmap string (option bool)) (lines : list string).

Local Abbreviation parse_regex_lines := (parse_regex_lines compiled re_compile).
Local Abbreviation init :=
  (GPUVerifyTestKernel_init compiled re_compile dirname cls).

Lemma parse_regex_lines_bare path n rules c rest :
  parse_regex_lines path n rules (bare_marker c :: rest) = Ok rules.
Proof. reflexivity. Qed.

Lemma parse_regex_lines_cons path n rules l rest :
  parse_regex_lines path n rules (l :: rest) =
  if startswith "//" (drop_last l) && (2 <? String.length (drop_last l))%nat
  then match re_compile [] (slice_from 2 (drop_last l)) with
       | inl _ =>
           parse_regex_lines path (n + 1)
             (<[slice_from 2 (drop_last l) := None]> rules) rest
       | inr e =>
           Raise (KernelParseError n path
             (String.concat EmptyString
                ["Invalid Regex ("; "<class 'sre_constants.error'>";
                 " : "; e; ")"]))
       end
  else Ok rules.
Proof. reflexivity. Qed.

Lemma parse_regex_lines_ignores_rest path front :
  forall n rules c rest,
    parse_regex_lines path n rules (front ++ bare_marker c :: rest) =
    parse_regex_lines path n rules front.
Proof.
  induction front as [|l front IH]; intros n rules c rest.
  - reflexivity.
  - rewrite <- app_comm_cons, !parse_regex_lines_cons.
    destruct (startswith "//" (drop_last l) && (2 <? String.length (drop_last l))%nat);
      [|reflexivity].
    destruct (re_compile [] (slice_from 2 (drop_last l))); [apply IH|reflexivity].
Qed.

(** A key of the rules has at least one character. *)
Lemma slice_from_2_nonempty line :
  (2 <? String.length line)%nat = true -> slice_from 2 line <> EmptyString.
Proof.
  destruct line as [|a [|b [|c r]]]; simpl; try discriminate.
Qed.

Lemma parse_regex_lines_no_empty_key path lines :
  forall n rules rules',
    parse_regex_lines path n rules lines = Ok rules' ->
    rules !! EmptyString = None -> rules' !! EmptyString = None.
Proof.
  induction lines as [|l lines IH]; intros n rules rules'.
  - simpl. by intros [= <-].
  - rewrite parse_regex_lines_cons.
    destruct (startswith "//" (drop_last l)) eqn:Hs;
      [rewrite andb_true_l|by intros [= <-]].
    destruct (2 <? String.length (drop_last l))%nat eqn:Hl; [|by intros [= <-]].
    destruct (re_compile [] (slice_from 2 (drop_last l))); [|discriminate].
    intros Hp Hk. apply (IH _ _ _ Hp).
    rewrite lookup_insert_ne; [done|]. by apply slice_from_2_nonempty.
Qed.

(** C10.  Among the lines from the third on, a line that is only the marker
    registers no pattern and ends the rules: the lines after it are ignored,
    for the rules and for the whole parse, and the empty pattern is never a
    rule. *)
Theorem bare_marker_ends_rules path (line1 line2 : string) front c rest :
  (forall n rules,
     parse_regex_lines path n rules (front ++ bare_marker c :: rest) =
     parse_regex_lines path n rules front) /\
  init path (line1 :: line2 :: front ++ bare_marker c :: rest) =
  init path (line1 :: line2 :: front) /\
  (forall test,
     init path (line1 :: line2 :: front ++ bare_marker c :: rest)
       = Ok test ->
     regex test !! EmptyString = None).
Proof.
  split; [|split].
  - intros n rules. apply parse_regex_lines_ignores_rest.
  - unfold GPUVerifyTestKernel_init; simpl.
    by rewrite parse_regex_lines_ignores_rest.
  - intros test. unfold GPUVerifyTestKernel_init; simpl.
    destruct (parse_expectedOutcome cls path line1); [simpl|done].
    destruct (parse_cmdArgs dirname path line2); [simpl|done].
    destruct (parse_regex_lines path 3 ∅ (front ++ bare_marker c :: rest))
      as [rules|] eqn:Hr; [simpl|done].
    intros [= <-]; simpl.
    apply (parse_regex_lines_no_empty_key _ _ _ _ _ Hr). apply lookup_empty.
Qed.

(** *** Strings *)

Lemma lower_app a b : lower (String.app a b) = String.app (lower a) (lower b).
Proof. induction a as [|c a IH]; simpl; [done|]. unfold lower in *. simpl. by rewrite IH. Qed.

Lemma string_app_cons c a b : String.app (String c a) b = String c (String.app a b).
Proof. reflexivity. Qed.

Lemma match_literal_spec lit : forall s m r,
  match_literal lit s = Some (m, r) <->
  s = String.app m r /\ lower m = lower lit.
Proof.
  induction lit as [|a lit IH]; intros s m r; simpl.
  - split.
    + intros [= <- <-]. done.
    + intros [-> Hm]. destruct m; [done|discriminate].
  - destruct s as [|c s].
    + split; [done|]. intros [Hs Hm]. destruct m; discriminate.
    + destruct (Ascii.eqb (lower_char a) (lower_char c)) eqn:Hc.
      * apply Ascii.eqb_eq in Hc.
        destruct (match_literal lit s) as [[m' r']|] eqn:Hrec.
        -- apply IH in Hrec as [-> Hl]. split.
           ++ intros [= <- <-]. split; [done|]. unfold lower in *; simpl.
              by rewrite Hl, Hc.
           ++ intros [Hs Hm]. destruct m as [|c' m]; [discriminate|].
              rewrite string_app_cons in Hs. injection Hs as <- Hs.
              unfold lower in Hm; simpl in Hm. injection Hm as _ Hm.
              assert (match_literal lit (String.app m' r') = Some (m, r)) as H
                by (apply IH; by rewrite Hs).
              assert (match_literal lit (String.app m' r') = Some (m', r')) as H'
                by (by apply IH).
              congruence.
        -- split; [done|]. intros [Hs Hm]. destruct m as [|c' m]; [discriminate|].
           rewrite string_app_cons in Hs. injection Hs as <- ->.
           unfold lower in Hm; simpl in Hm. injection Hm as _ Hm.
           assert (match_literal lit (String.app m r) = Some (m, r)) as H
             by (by apply IH).
           congruence.
      * split; [done|]. intros [Hs Hm]. destruct m as [|c' m]; [discriminate|].
        rewrite string_app_cons in Hs. injection Hs as <- ->.
        unfold lower in Hm; simpl in Hm. injection Hm as Hm _.
        apply Ascii.eqb_neq in Hc. congruence.
Qed.

Lemma string_app_nil b : String.app EmptyString b = b.
Proof. reflexivity. Qed.

Lemma span_spec p : forall s a b,
  span p s = (a, b) <->
  s = String.app a b /\ all_chars p a = true /\ stops p b = true.
Proof.
  induction s as [|c s IH]; intros a b; simpl.
  - split.
    + by intros [= <- <-].
    + intros (Hs & _ & _). destruct a as [|c' a].
      * rewrite string_app_nil in Hs. by subst.
      * rewrite string_app_cons in Hs. discriminate.
  - destruct (p c) eqn:Hc.
    + destruct (span p s) as [a' b'] eqn:Hsp.
      pose proof (proj1 (IH a' b') eq_refl) as (-> & Ha' & Hb').
      split.
      * intros [= <- <-]. simpl. by rewrite Hc.
      * intros (Hs & Ha & Hb). destruct a as [|c' a].
        -- rewrite string_app_nil in Hs. subst b. simpl in Hb. by rewrite Hc in Hb.
        -- rewrite string_app_cons in Hs. injection Hs as <- Hs.
           simpl in Ha. rewrite Hc in Ha. simpl in Ha.
           assert ((a', b') = (a, b)) as H by (by apply IH).
           congruence.
    + split.
      * intros [= <- <-]. simpl. by rewrite Hc.
      * intros (Hs & Ha & Hb). destruct a as [|c' a].
        -- rewrite string_app_nil in Hs. by subst.
        -- rewrite string_app_cons in Hs. injection Hs as <- _.
           simpl in Ha. by rewrite Hc in Ha.
Qed.

Lemma string_app_assoc a b c :
  String.app (String.app a b) c = String.app a (String.app b c).
Proof.
  induction a as [|x a IH]; [done|]. rewrite !string_app_cons. by rewrite IH.
Qed.

Lemma match_literal_app lit m r :
  lower m = lower lit -> match_literal lit (String.app m r) = Some (m, r).
Proof. intros H. by apply match_literal_spec. Qed.

Lemma lower_split a : forall m b,
  lower m = lower (String.app a b) ->
  exists m1 m2, m = String.app m1 m2 /\ lower m1 = lower a /\ lower m2 = lower b.
Proof.
  induction a as [|x a IH]; intros m b Hm.
  - exists EmptyString, m. by rewrite string_app_nil in *.
  - rewrite string_app_cons in Hm. destruct m as [|c m]; [discriminate|].
    unfold lower in Hm; simpl in Hm. injection Hm as Hc Hm.
    destruct (IH m b Hm) as (m1 & m2 & -> & H1 & H2).
    exists (String c m1), m2. repeat split; try done.
    unfold lower in *; simpl. by rewrite Hc, H1.
Qed.

Lemma pass_is_not_xfail x g r r' :
  lower x = lower "xfail:" -> lower g = lower "pass" ->
  String.app x r <> String.app g r'.
Proof.
  intros Hx Hg Heq.
  destruct x as [|cx x]; [discriminate|]. destruct g as [|cg g]; [discriminate|].
  rewrite !string_app_cons in Heq. injection Heq as <- _.
  unfold lower in Hx, Hg; simpl in Hx, Hg.
  injection Hx as Hx _. injection Hg as Hg _. rewrite Hx in Hg. discriminate.
Qed.

(** *** The pattern of the first line *)

Lemma regexOutcome_match_pass line :
  matches_pass line ->
  exists g1, regexOutcome_match line = Some (g1, None) /\ lower g1 = "pass"%string.
Proof.
  intros (m & rest & -> & Hm).
  destruct (lower_split "//" m "pass" Hm) as (m1 & m2 & -> & H1 & H2).
  unfold regexOutcome_match.
  rewrite string_app_assoc, (match_literal_app "//") by done.
  rewrite (match_literal_app "pass") by done. eauto.
Qed.

Lemma regexOutcome_match_xfail line code :
  matches_xfail line code ->
  exists x, regexOutcome_match line = Some (String.app x code, Some code) /\
            lower x = "xfail:"%string.
Proof.
  intros (m & rest & -> & Hm & Hne & Hall & Hstop).
  destruct (lower_split "//" m "xfail:" Hm) as (m1 & m2 & -> & H1 & H2).
  unfold regexOutcome_match.
  rewrite string_app_assoc, (match_literal_app "//") by done.
  destruct (match_literal "pass" _) as [[g r]|] eqn:Hp.
  { apply match_literal_spec in Hp as [Heq Hg].
    by apply pass_is_not_xfail in Heq. }
  rewrite (match_literal_app "xfail:") by done.
  assert (span is_code_char (String.app code rest) = (code, rest)) as ->
    by (by apply span_spec).
  destruct code; [done|]. eauto.
Qed.

Lemma regexOutcome_match_inv line g1 g2 :
  regexOutcome_match line = Some (g1, g2) ->
  (matches_pass line /\ lower g1 = "pass"%string /\ g2 = None) \/
  (exists code, matches_xfail line code /\ g2 = Some code /\
                lower g1 <> "pass"%string).
Proof.
  unfold regexOutcome_match.
  destruct (match_literal "//" line) as [[s0 r]|] eqn:H0; [|done].
  apply match_literal_spec in H0 as [-> Hs0].
  destruct (match_literal "pass" r) as [[g r1]|] eqn:H1.
  - apply match_literal_spec in H1 as [-> Hg]. intros [= <- <-]. left.
    split; [|done]. exists (String.app s0 g), r1.
    rewrite string_app_assoc, lower_app, Hs0, Hg. done.
  - destruct (match_literal "xfail:" r) as [[x r']|] eqn:H2; [|done].
    apply match_literal_spec in H2 as [-> Hx].
    destruct (span is_code_char r') as [code b] eqn:Hsp.
    apply span_spec in Hsp as (-> & Hall & Hstop).
    destruct code as [|c code]; [done|]. intros [= <- <-]. right.
    exists (String c code). split; [|split; [done|]].
    + exists (String.app s0 x), b.
      rewrite string_app_assoc, lower_app, Hs0, Hx. done.
    + rewrite lower_app, Hx. discriminate.
Qed.

(** *** The codes that a test may expect *)

Lemma getValidxfailCodes_loop_spec success mismatch items :
  SUCCESS cls = Ok success ->
  REGEX_MISMATCH_ERROR cls = Ok mismatch ->
  getValidxfailCodes_loop cls items =
  Ok (List.filter
        (fun codeTuple =>
           negb ((fst codeTuple =? success) || (fst codeTuple =? mismatch)))
        items).
Proof.
  intros Hs Hr. induction items as [|[c n] items IH]; [done|].
  simpl. rewrite Hs, Hr, IH. simpl.
  destruct (c =? success); simpl; [done|]. by destruct (c =? mismatch).
Qed.

Lemma getValidxfailCodes_spec success mismatch :
  SUCCESS cls = Ok success ->
  REGEX_MISMATCH_ERROR cls = Ok mismatch ->
  exists valid,
    getValidxfailCodes cls = Ok valid /\
    forall name, In name (map snd valid) <->
      exists c, errorCodeToString cls !! c = Some name /\
                c <> success /\ c <> mismatch.
Proof.
  intros Hs Hr. eexists. split.
  - unfold getValidxfailCodes. by apply getValidxfailCodes_loop_spec.
  - intros name. rewrite in_map_iff. split.
    + intros ([c n] & <- & Hin). apply filter_In in Hin as [Hin Hf].
      apply list_elem_of_In, elem_of_map_to_list in Hin. simpl in *.
      exists c. split; [done|].
      apply negb_true_iff, orb_false_iff in Hf as [H1 H2]. lia.
    + intros (c & Hc & H1 & H2). exists (c, name). split; [done|].
      apply filter_In. split.
      * by apply list_elem_of_In, elem_of_map_to_list.
      * simpl. apply negb_true_iff, orb_false_iff. lia.
Qed.

Lemma In_lookup_attr n c attrs :
  In (n, c) attrs -> is_Some (lookup_attr n attrs).
Proof.
  induction attrs as [|[n' c'] attrs IH]; simpl; [done|].
  intros [[= -> ->]|Hin].
  - rewrite String.eqb_refl. eauto.
  - destruct (String.eqb n n'); eauto.
Qed.

Lemma registered_name_is_attribute base n c :
  static_init base = Ok cls ->
  errorCodeToString cls !! c = Some n ->
  exists c', getattr (attributes cls) n = Ok c'.
Proof.
  intros Hinit Hc.
  destruct (static_init_spec _ _ Hinit) as (r & Hr & _ & Hattr & Hrev & _).
  destruct (decide (n = "REGEX_MISMATCH_ERROR"%string)) as [->|Hne]; [eauto|].
  destruct (Hrev _ _ Hc) as [[-> _]|Hin]; [done|].
  apply In_public in Hin as [Hin _]. apply In_lookup_attr in Hin as [c' Hc'].
  exists c'. rewrite Hattr by done. unfold getattr. by rewrite Hc'.
Qed.

(** C7.  The first line yields success when it starts with [//pass], the
    code named when it starts with [//xfail:CODE] and [CODE] names an entry
    of the registry other than the success and pattern-mismatch codes, and a
    parse error for line 1 in every other case; the whole parse fails with
    that error. *)
Theorem first_line_outcome base path line success :
  static_init base = Ok cls ->
  SUCCESS cls = Ok success ->
  exists mismatch valid,
    REGEX_MISMATCH_ERROR cls = Ok mismatch /\
    getValidxfailCodes cls = Ok valid /\
    (forall name, In name (map snd valid) <->
       exists c, errorCodeToString cls !! c = Some name /\
                 c <> success /\ c <> mismatch) /\
    (matches_pass line -> parse_expectedOutcome cls path line = Ok success) /\
    (forall code, matches_xfail line code -> In (upper code) (map snd valid) ->
       exists c, getattr (attributes cls) (upper code) = Ok c /\
                 parse_expectedOutcome cls path line = Ok c) /\
    (forall code, matches_xfail line code -> ~ In (upper code) (map snd valid) ->
       exists message,
         parse_expectedOutcome cls path line =
         Raise (KernelParseError 1 path message)) /\
    (~ matches_pass line -> (forall code, ~ matches_xfail line code) ->
       exists message,
         parse_expectedOutcome cls path line =
         Raise (KernelParseError 1 path message)) /\
    (forall rest e, parse_expectedOutcome cls path line = Raise e ->
       init path (line :: rest) = Raise e) /\
    (forall rest c test, parse_expectedOutcome cls path line = Ok c ->
       init path (line :: rest) = Ok test -> expectedReturnCode test = c).
Proof.
  intros Hinit Hs.
  destruct (static_init_spec _ _ Hinit) as (mismatch & Hr & _).
  destruct (getValidxfailCodes_spec _ _ Hs Hr) as (valid & Hvalid & Hnames).
  exists mismatch, valid. split; [done|]. split; [done|]. split; [done|].
  assert (Hex : forall name, existsb (String.eqb name) (map snd valid) = true <->
                             In name (map snd valid)).
  { intros name. rewrite existsb_exists. split.
    - intros (x & Hin & Heq). apply String.eqb_eq in Heq. by subst.
    - intros Hin. exists name. by rewrite String.eqb_refl. }
  repeat split.
  - intros Hp. apply regexOutcome_match_pass in Hp as (g1 & Hm & Hg).
    unfold parse_expectedOutcome. by rewrite Hm, Hg.
  - intros code Hx Hin.
    apply regexOutcome_match_xfail in Hx as (x & Hm & Hlx).
    apply Hnames in Hin as Hreg. destruct Hreg as (c & Hc & _).
    destruct (registered_name_is_attribute _ _ _ Hinit Hc) as [c' Hc'].
    exists c'. split; [done|].
    unfold parse_expectedOutcome. rewrite Hm, lower_app, Hlx. simpl.
    rewrite Hvalid. simpl. apply Hex in Hin. by rewrite Hin.
  - intros code Hx Hnin.
    apply regexOutcome_match_xfail in Hx as (x & Hm & Hlx).
    unfold parse_expectedOutcome. rewrite Hm, lower_app, Hlx. simpl.
    rewrite Hvalid. simpl.
    destruct (existsb _ _) eqn:E; [by apply Hex in E|]. eauto.
  - intros Hnp Hnx. unfold parse_expectedOutcome.
    destruct (regexOutcome_match line) as [[g1 g2]|] eqn:Hm; [|eauto].
    apply regexOutcome_match_inv in Hm as [[Hp _]|(code & Hx & _)]; [done|].
    by apply Hnx in Hx.
  - intros rest e He. unfold GPUVerifyTestKernel_init; simpl. by rewrite He.
  - intros rest c test Hc. unfold GPUVerifyTestKernel_init; simpl. rewrite Hc. simpl.
    destruct rest as [|l2 rest]; simpl.
    + destruct (parse_cmdArgs dirname path EmptyString); [simpl|done].
      by intros [= <-].
    + destruct (parse_cmdArgs dirname path l2); [simpl|done].
      destruct (parse_regex_lines path 3 ∅ rest); [simpl|done].
      by intros [= <-].
Qed.

End ParserProperties.

(** [first_line_outcome] at work: [//xfail:timeout] expects the code that
    the sample registry calls [TIMEOUT]. *)
Lemma first_line_outcome_witness :
  static_init sample_ErrorCodes = Ok sample_cls /\
  SUCCESS sample_cls = Ok 0 /\
  matches_xfail (line "//xfail:timeout") "timeout" /\
  parse_expectedOutcome sample_cls "kernel.cl" (line "//xfail:timeout") = Ok 7.
Proof.
  assert (Hinit : static_init sample_ErrorCodes = Ok sample_cls) by reflexivity.
  assert (Hs : SUCCESS sample_cls = Ok 0) by reflexivity.
  assert (Hx : matches_xfail (line "//xfail:timeout") "timeout").
  { exists "//xfail:"%string, (String newline EmptyString). by vm_compute. }
  split; [exact Hinit|]. split; [exact Hs|]. split; [exact Hx|].
  destruct (first_line_outcome string literal_compile (fun p => p) sample_cls
              sample_ErrorCodes "kernel.cl" (line "//xfail:timeout") 0 Hinit Hs)
    as (mismatch & valid & _ & Hvalid & _ & _ & Hcode & _).
  destruct (Hcode "timeout"%string Hx) as (c & Hc & Hparse).
  - vm_compute in Hvalid. injection Hvalid as <-. vm_compute. tauto.
  - vm_compute in Hc. injection Hc as <-. exact Hparse.
Defined.

(** ** Failures of the parser that are not parse errors *)

(** C5 fails on the second line: an argument that names a variable other
    than [KERNEL_DIR], or that has a stray [$], makes the parser raise the
    [KeyError] or [ValueError] of [string.Template], not a
    [KernelParseError]. *)
Theorem substitution_error_is_not_a_parse_error
    (compiled : Type) (re_compile : list re_flag -> string -> compiled + string)
    (dirname : string -> string) (cls : GPUVerifyErrorCodes)
    (path : string) (success : Z) (rest : list string) :
  SUCCESS cls = Ok success ->
  GPUVerifyTestKernel_init compiled re_compile dirname cls path
    (line "//pass" :: line "// --opt=$FOO" :: rest) = Raise (KeyError (KStr "FOO")) /\
  GPUVerifyTestKernel_init compiled re_compile dirname cls path
    (line "//pass" :: line "// --opt=$" :: rest) = Raise invalid_placeholder.
Proof.
  intros Hs. unfold GPUVerifyTestKernel_init; simpl.
  assert (parse_expectedOutcome cls path (line "//pass") = Ok success) as ->.
  { unfold parse_expectedOutcome. by vm_compute regexOutcome_match. }
  split; reflexivity.
Qed.

Lemma substitution_error_is_not_a_parse_error_witness :
  SUCCESS sample_cls = Ok 0 /\
  GPUVerifyTestKernel_init string literal_compile (fun p => p) sample_cls
    "/home/alice/testsuite/a/kernel.cl"
    [line "//pass"; line "// --opt=$FOO"] = Raise (KeyError (KStr "FOO")).
Proof.
  split; [reflexivity|].
  apply (substitution_error_is_not_a_parse_error string literal_compile
           (fun p => p) sample_cls "/home/alice/testsuite/a/kernel.cl" 0 []).
  reflexivity.
Defined.

(** ** The driver *)

Section MainProperties.

Variable compiled : Type.
Variable re_compile : list re_flag -> string -> compiled + string.
Variable dirname : string -> string.
Variable cls : GPUVerifyErrorCodes.
Variable pickles : string -> result (list GPUVerifyTestKernel).
Variable isdir : string -> bool.
Variable find_kernels : string -> string -> list string.
Variable open_file : string -> list string.
Variable waitForCompletion :
  Z -> list GPUVerifyTestKernel -> list GPUVerifyTestKernel ->
  list GPUVerifyTestKernel.

Local Abbreviation init :=
  (GPUVerifyTestKernel_init compiled re_compile dirname cls).
Local Abbreviation parse_kernels :=
  (parse_kernels compiled re_compile dirname cls open_file).
Local Abbreviation run_main :=
  (main compiled re_compile dirname cls pickles isdir find_kernels open_file
        waitForCompletion).

(** The loop over the kernel files up to the first parse error. *)
Lemma parse_kernels_first_error args good f rest l p m :
  Forall (fun g => exists test, init g (open_file g) = Ok test) good ->
  init f (open_file f) = Raise (KernelParseError l p m) ->
  forall tests,
    parse_kernels args (good ++ f :: rest) tests =
    Raise (AttributeError "stop_on_fail").
Proof.
  intros Hgood Hf. induction Hgood as [|g good [test Hg] _ IH]; intros tests; simpl.
  - by rewrite Hf.
  - rewrite Hg. apply IH.
Qed.


(** C6 fails in the code: at the first kernel file with a parse error,
    [main] reads [args.stop_on_fail], which no option defines, and ends with
    an [AttributeError]; it neither returns the code of a parse error nor
    goes on to the other files. *)
Theorem parse_error_crashes_main args good f rest l p m :
  String.eqb (write_pickle args) (compare_run args)
    && (0 <? String.length (write_pickle args))%nat = false ->
  threads args >? 50 = false ->
  compare_run args = EmptyString ->
  isdir (directory args) = true ->
  find_kernels (directory args) (kernel_regex args) = good ++ f :: rest ->
  Forall (fun g => exists test, init g (open_file g) = Ok test) good ->
  init f (open_file f) = Raise (KernelParseError l p m) ->
  run_main args = Raise (AttributeError "stop_on_fail") /\
  exit_status (run_main args) <> GPUVerifyTesterErrorCodes.KERNEL_PARSE_ERROR.
Proof.
  intros Hw Ht Hc Hd Hk Hgood Hf.
  assert (Hmain : run_main args = Raise (AttributeError "stop_on_fail")).
  { unfold main. rewrite Hw, Ht, Hc. simpl. rewrite Hd, Hk. simpl.
    assert ((length (good ++ f :: rest) =? 0)%nat = false) as ->.
    { rewrite length_app. simpl. apply Nat.eqb_neq. lia. }
    by rewrite (parse_kernels_first_error args good f rest l p m). }
  split; [exact Hmain|]. rewrite Hmain. done.
Qed.

(** The entry point that compares two pickled runs turns the verdict into
    the exit status: failure for regression, success otherwise. *)
Lemma comparePickleFiles_status old new prefix oldTests newTests :
  pickles old = Ok oldTests ->
  pickles new = Ok newTests ->
  exit_status (comparePickleFiles pickles old new prefix) =
  if doComparison oldTests newTests prefix =? 1 then 1
  else GPUVerifyTesterErrorCodes.SUCCESS.
Proof.
  intros Ho Hn. unfold comparePickleFiles, openPickle. rewrite Ho, Hn. simpl.
  unfold doComparison.
  destruct (changeIsWorse _); [done|]. by destruct (_ && _).
Qed.

(** C4 fails in the code for a comparison after a fresh run: [main] calls
    [doComparison] and drops its result, so it returns success whatever the
    verdict, regression included. *)
Theorem compare_run_verdict_ignored args oldTests tests added verdict :
  String.eqb (write_pickle args) (compare_run args)
    && (0 <? String.length (write_pickle args))%nat = false ->
  threads args >? 50 = false ->
  compare_run args <> EmptyString ->
  pickles (compare_run args) = Ok oldTests ->
  isdir (directory args) = true ->
  find_kernels (directory args) (kernel_regex args) <> [] ->
  parse_kernels args (find_kernels (directory args) (kernel_regex args)) []
    = Ok (inl tests) ->
  add_tests cls args tests = Ok added ->
  doComparison oldTests (waitForCompletion (threads args) added tests)
    (canonical_path_prefix args) = verdict ->
  run_main args = Ok GPUVerifyTesterErrorCodes.SUCCESS /\
  exit_status (run_main args) = GPUVerifyTesterErrorCodes.SUCCESS.
Proof.
  intros Hw Ht Hc Hp Hd Hk Hparse Hadd _.
  assert (Hmain : run_main args = Ok GPUVerifyTesterErrorCodes.SUCCESS).
  { unfold main. rewrite Hw, Ht.
    assert ((0 <? String.length (compare_run args))%nat = true) as ->.
    { destruct (compare_run args); [done|reflexivity]. }
    unfold openPickle. rewrite Hp. simpl. rewrite Hd. simpl.
    assert ((length (find_kernels (directory args) (kernel_regex args)) =? 0)%nat
            = false) as ->.
    { destruct (find_kernels _ _); [done|reflexivity]. }
    rewrite Hparse. simpl. by rewrite Hadd. }
  split; [exact Hmain|]. by rewrite Hmain.
Qed.

End MainProperties.

(** [parse_error_crashes_main] at work: the only kernel file has no outcome
    on its first line. *)
Lemma parse_error_crashes_main_witness :
  exists message,
    GPUVerifyTestKernel_init string literal_compile (fun p => p) sample_cls
      "/home/alice/testsuite/a/kernel.cl"
      (broken_open_file "/home/alice/testsuite/a/kernel.cl")
    = Raise (KernelParseError 1 "/home/alice/testsuite/a/kernel.cl" message) /\
    main string literal_compile (fun p => p) sample_cls (fun _ => Raise IOError)
      (fun _ => true) sample_find_kernels broken_open_file
      (one_worker sample_cls 2 "error")
      {| directory := "/home/alice/testsuite";
         kernel_regex := "^kernel\.(cu|cl)$";
         log_level := "INFO";
         write_pickle := EmptyString;
         canonical_path_prefix := "testsuite";
         compare_run := EmptyString;
         threads := 1;
         run_only_pass := false;
         run_only_xfail := false |}
    = Raise (AttributeError "stop_on_fail").
Proof.
  eexists. split; [reflexivity|].
  eapply (parse_error_crashes_main string literal_compile (fun p => p) sample_cls
            (fun _ => Raise IOError) (fun _ => true) sample_find_kernels broken_open_file
            (one_worker sample_cls 2 "error") _ []
            "/home/alice/testsuite/a/kernel.cl" []).
  - reflexivity.
  - reflexivity.
  - reflexivity.
  - reflexivity.
  - reflexivity.
  - constructor.
  - reflexivity.
Defined.

(** [compare_run_verdict_ignored] at work: the kernel passed in the old run
    and fails in the fresh one, the verdict is regression, two pickles of
    these runs compared by [--compare-pickles] give exit status 1, and
    [main] returns success. *)
Lemma compare_run_verdict_ignored_witness :
  let tests := [kernel_unexecuted] in
  let tests' := one_worker sample_cls 2 "error" 1 tests tests in
  doComparison [kernel_passed] tests' "testsuite" = 1 /\
  main string literal_compile (fun p => p) sample_cls sample_pickles
    (fun _ => true) sample_find_kernels sample_open_file
    (one_worker sample_cls 2 "error") sample_args
  = Ok GPUVerifyTesterErrorCodes.SUCCESS.
Proof.
  split; [by vm_compute|].
  eapply (compare_run_verdict_ignored string literal_compile (fun p => p)
            sample_cls sample_pickles (fun _ => true) sample_find_kernels
            sample_open_file (one_worker sample_cls 2 "error") sample_args
            [kernel_passed]).
  - reflexivity.
  - reflexivity.
  - discriminate.
  - reflexivity.
  - reflexivity.
  - discriminate.
  - reflexivity.
  - reflexivity.
  - reflexivity.
Defined.

(** ** The worker pool *)

Lemma inflight_insert_running (ws : list worker_state) (w : nat) test st :
  ws !! w = Some st -> (forall t, st <> Running t) ->
  inflight (<[w := Running test]> ws) ≡ₚ test :: inflight ws.
Proof.
  revert w. induction ws as [|x ws IH]; intros [|w] Hw Hst; simpl in *; try done.
  - injection Hw as ->. destruct st; try done. by destruct (Hst test0).
  - destruct x; simpl; rewrite ?(IH w) by done; try done. apply perm_swap.
Qed.

Lemma inflight_insert_done (ws : list worker_state) (w : nat) test st :
  ws !! w = Some (Running test) -> (forall t, st <> Running t) ->
  inflight ws ≡ₚ test :: inflight (<[w := st]> ws).
Proof.
  revert w. induction ws as [|x ws IH]; intros [|w] Hw Hst; simpl in *; try done.
  - injection Hw as ->. destruct st; try done. by destruct (Hst test0).
  - destruct x; simpl; rewrite ?(IH w) by done; try done. apply perm_swap.
Qed.

Lemma worker_state_kept (ws : list worker_state) (w : nat) x st st' :
  x ∈ ws -> ws !! w = Some st -> st <> x ->
  x ∈ <[w := st']> ws.
Proof.
  intros Hin Hw Hst. apply list_elem_of_lookup in Hin as [j Hj].
  apply list_elem_of_lookup. exists j. rewrite list_lookup_insert_ne; [done|].
  intros ->. congruence.
Qed.

Lemma after_run_not_Running cls returncode t : after_run cls returncode <> Running t.
Proof.
  unfold after_run. destruct (CTRL_C cls); [|done]. by destruct (_ =? _).
Qed.

Section PoolProperties.

Variable compiled : Type.
Variable re_compile : list re_flag -> string -> compiled + string.
Variable re_search : compiled -> string -> bool.
Variable cls : GPUVerifyErrorCodes.

Local Abbreviation step := (step compiled re_compile re_search cls).
Local Abbreviation run := (run compiled re_compile re_search cls).

Lemma inflight_replicate_Waiting n : inflight (replicate n Waiting) = [].
Proof. induction n; simpl; auto. Qed.

Lemma pool_invariant_start numberOfThreads added :
  pool_invariant numberOfThreads added (ThreadPool_start numberOfThreads added).
Proof.
  split; simpl; rewrite ?inflight_replicate_Waiting; simpl.
  - by rewrite app_nil_r.
  - rewrite length_seq. lia.
  - apply length_replicate.
  - done.
  - done.
  - intros w i Hin. by apply elem_of_nil in Hin.
  - done.
  - done.
Qed.

(** Two parts of a partition of the tests have no test in common. *)
Lemma partition_NoDup n (l : list nat) : l ≡ₚ seq 0 n -> NoDup l.
Proof. intros ->. apply NoDup_ListNoDup, List.seq_NoDup. Qed.

Lemma pool_invariant_step numberOfThreads added s s' :
  pool_invariant numberOfThreads added s -> step s s' ->
  pool_invariant numberOfThreads added s'.
Proof.
  intros [Hpart Hunf Hws Hts Hunt Hexe Hdr Hcr] Hstep.
  pose proof (partition_NoDup _ _ Hpart) as Hnd.
  destruct Hstep as [s w test rest Hw Hq
                    |s w test self returncode stdout self' n Hw Ht Hrun Hn
                    |s w test self returncode stdout e Hw Ht Hrun
                    |s w test rest n Hw Hq Hn].
  - pose proof (inflight_insert_running _ _ test _ Hw ltac:(done)) as Hin.
    rewrite Hq in *. split; simpl.
    + rewrite Hin, <- Hpart. solve_Permutation.
    + rewrite Hin. simpl in *. lia.
    + by rewrite length_insert.
    + done.
    + intros i Hi. apply Hunt. rewrite Hin in Hi. set_solver.
    + done.
    + intros Hd. eapply worker_state_kept; eauto.
    + intros Hc. eapply worker_state_kept; eauto.
  - pose proof (inflight_insert_done _ _ test (after_run cls returncode) Hw
                  (after_run_not_Running cls returncode)) as Hin.
    rewrite Hin in Hpart, Hnd, Hunf.
    assert (Hfresh : forall i,
              i ∈ theQueue s ++ inflight (<[w := after_run cls returncode]> (workers s))
                    ++ map snd (executed s) ++ drained s ++ crashed s ->
              i <> test).
    { intros i Hi ->.
      apply NoDup_app in Hnd as (_ & Hq & Hnd).
      apply NoDup_cons in Hnd as [Hnt _].
      set_solver. }
    split; simpl.
    + rewrite <- Hpart. solve_Permutation.
    + simpl in Hunf. lia.
    + by rewrite length_insert.
    + by rewrite length_insert.
    + intros i Hi. rewrite list_lookup_insert_ne.
      * apply Hunt. rewrite Hin. set_solver.
      * intros Heq. apply (Hfresh i); [set_solver|done].
    + intros w' i Hi. apply elem_of_cons in Hi as [[= -> ->]|Hi].
      * split; [apply lookup_lt_Some in Hw; lia|].
        exists self'. split.
        -- apply list_lookup_insert_eq. by apply lookup_lt_Some in Ht.
        -- apply run_inv in Hrun as (rules & returned & _ & _ & _ & ->). done.
      * destruct (Hexe _ _ Hi) as [Hlt (t & Hti & Hex)]. split; [done|].
        exists t. split; [|done]. rewrite list_lookup_insert_ne; [done|].
        intros Heq. apply (Hfresh i); [|done].
        assert (i ∈ map snd (executed s)); [|set_solver].
        apply list_elem_of_In, in_map_iff. exists (w', i).
        split; [done|]. by apply list_elem_of_In.
    + intros Hd. eapply worker_state_kept; eauto.
    + intros Hc. eapply worker_state_kept; eauto.
  - pose proof (inflight_insert_done _ _ test Dead Hw ltac:(done)) as Hin.
    split; simpl.
    + rewrite <- Hpart, Hin. solve_Permutation.
    + rewrite Hunf, Hin. simpl. lia.
    + by rewrite length_insert.
    + done.
    + intros i Hi. apply Hunt. rewrite Hin. set_solver.
    + done.
    + intros Hd. eapply worker_state_kept; eauto.
    + intros _. apply list_elem_of_lookup. exists w.
      apply list_lookup_insert_eq. by apply lookup_lt_Some in Hw.
  - rewrite Hq in *. split; simpl.
    + rewrite <- Hpart. solve_Permutation.
    + simpl in Hunf. lia.
    + done.
    + done.
    + intros i Hi. apply Hunt. set_solver.
    + done.
    + intros _. apply list_elem_of_lookup. eauto.
    + done.
Qed.

Lemma pool_invariant_reachable numberOfThreads added s :
  rtc step (ThreadPool_start numberOfThreads added) s ->
  pool_invariant numberOfThreads added s.
Proof.
  revert s. apply rtc_ind_r.
  - apply pool_invariant_start.
  - intros y z _ Hstep Hinv. eapply pool_invariant_step; eauto.
Qed.







End PoolProperties.

(** *** A run of the sample pool *)





(** * Further properties of the code *)

(** ** Canonical test names *)

Local Transparent String.prefix.

Lemma prefix_spec p : forall s,
  String.prefix p s = true <-> exists after, s = String.app p after.
Proof.
  induction p as [|a p IH]; intros s.
  - split; [intros _; by exists s|]. intros _. by destruct s.
  - destruct s as [|b s]; simpl.
    + split; [done|]. intros [after H]. rewrite string_app_cons in H. discriminate.
    + destruct (ascii_dec a b) as [->|Hne].
      * rewrite IH. split.
        -- intros [after ->]. by exists after.
        -- intros [after H]. rewrite string_app_cons in H. injection H as ->. eauto.
      * split; [done|]. intros [after H]. rewrite string_app_cons in H. congruence.
Qed.

Lemma string_length_app a b :
  String.length (String.app a b) = (String.length a + String.length b)%nat.
Proof. induction a as [|c a IH]; [done|]. rewrite string_app_cons. simpl. by rewrite IH. Qed.

Lemma slice_from_app a b : slice_from (String.length a) (String.app a b) = b.
Proof. induction a as [|c a IH]; [by destruct b|]. rewrite string_app_cons. by simpl. Qed.

Lemma index_cons text b s :
  String.index 0 text (String b s) =
  if String.prefix text (String b s) then Some 0%nat
  else match String.index 0 text s with
       | Some n => Some (S n)
       | None => None
       end.
Proof. reflexivity. Qed.

(** [s.index(text)]: the first place where [text] occurs. *)
Lemma index_Some text : forall s i,
  String.index 0 text s = Some i ->
  occurs_at text s i /\ forall n, occurs_at text s n -> (i <= n)%nat.
Proof.
  induction s as [|b s IH]; intros i.
  - simpl. destruct text; [|done]. intros [= <-]. split; [|lia].
    by exists EmptyString, EmptyString.
  - rewrite index_cons. destruct (String.prefix text (String b s)) eqn:Hp.
    + intros [= <-]. split; [|lia].
      apply prefix_spec in Hp as [after ->]. by exists EmptyString, after.
    + destruct (String.index 0 text s) as [j|] eqn:Hj; [|done].
      intros [= <-]. destruct (IH j eq_refl) as [(before & after & -> & Hlen) Hmin].
      split.
      * exists (String b before), after. rewrite string_app_cons. simpl. by rewrite Hlen.
      * intros n (before' & after' & Heq & Hn). destruct before' as [|b' before'].
        -- rewrite string_app_nil in Heq.
           assert (String.prefix text (String b (String.app before (String.app text after))) = true)
             by (apply prefix_spec; eauto).
           congruence.
        -- rewrite string_app_cons in Heq. injection Heq as _ Heq. simpl in Hn.
           assert (j <= String.length before')%nat; [|lia].
           apply Hmin. by exists before', after'.
Qed.

Lemma index_None text : forall s,
  String.index 0 text s = None -> forall n, ~ occurs_at text s n.
Proof.
  induction s as [|b s IH].
  - simpl. destruct text as [|a text]; [done|]. intros _ n (before & after & Heq & _).
    destruct before; [rewrite string_app_nil, string_app_cons in Heq|
                      rewrite string_app_cons in Heq]; discriminate.
  - rewrite index_cons.
    destruct (String.prefix text (String b s)) eqn:Hp; [done|].
    destruct (String.index 0 text s) as [j|] eqn:Hj; [done|].
    intros _ n (before & after & Heq & Hn). destruct before as [|b' before].
    + rewrite string_app_nil in Heq.
      assert (String.prefix text (String b s) = true) by (apply prefix_spec; eauto).
      congruence.
    + rewrite string_app_cons in Heq. injection Heq as _ Heq.
      apply (IH eq_refl (String.length before)). by exists before, after.
Qed.

Lemma app_same_length a a' b b' :
  String.app a b = String.app a' b' -> String.length a = String.length a' ->
  a = a' /\ b = b'.
Proof.
  revert a'. induction a as [|c a IH]; intros [|c' a'] Heq Hlen; try done.
  rewrite !string_app_cons in Heq. injection Heq as -> Heq.
  simpl in Hlen. destruct (IH a' Heq) as [-> ->]; [lia|done].
Qed.

(** X1.  [getCanonicalTestName] returns the text from the first occurrence
    of the prefix on, with backslashes turned into slashes, and raises
    [CanonicalisationError] exactly when the prefix does not occur in the
    path. *)
Theorem getCanonicalTestName_spec (path prefix : string) :
  (forall cPath,
     getCanonicalTestName path prefix = Ok cPath <->
     exists before after,
       path = String.app before (String.app prefix after) /\
       (forall n, occurs_at prefix path n -> (String.length before <= n)%nat) /\
       cPath = to_unix (String.app prefix after)) /\
  (getCanonicalTestName path prefix = Raise (CanonicalisationError path prefix) <->
   forall n, ~ occurs_at prefix path n) /\
  (forall e, getCanonicalTestName path prefix = Raise e ->
     e = CanonicalisationError path prefix).
Proof.
  unfold getCanonicalTestName.
  destruct (String.index 0 prefix path) as [i|] eqn:Hi.
  - apply index_Some in Hi as [(before & after & Hp & Hlen) Hmin].
    split; [|split].
    + intros cPath. split.
      * intros [= <-]. exists before, after. split; [done|]. split.
        -- intros n Hn. rewrite Hlen. by apply Hmin.
        -- rewrite Hp, <- Hlen. by rewrite slice_from_app.
      * intros (before' & after' & Hp' & Hmin' & ->).
        assert (String.length before' = String.length before) as Hl.
        { apply Nat.le_antisymm.
          - apply Hmin'. by exists before, after.
          - rewrite Hlen. apply Hmin. by exists before', after'. }
        rewrite Hp in Hp'. symmetry in Hp'.
        destruct (app_same_length _ _ _ _ Hp' Hl) as [-> Hafter].
        apply String.app_inj in Hafter as ->.
        rewrite Hp, <- Hlen. by rewrite slice_from_app.
    + split; [done|]. intros Hno. exfalso. apply (Hno i). by exists before, after.
    + done.
  - pose proof (index_None _ _ Hi) as Hno. split; [|split].
    + intros cPath. split; [done|].
      intros (before & after & Hp & _). exfalso.
      apply (Hno (String.length before)). by exists before, after.
    + done.
    + by intros e [= <-].
Qed.

(** ** The dictionary of a run *)

Lemma make_testDictionary_snoc prefix tests test :
  make_testDictionary prefix (tests ++ [test]) =
  <[cPath_of prefix test := test]> (make_testDictionary prefix tests).
Proof. unfold make_testDictionary. by rewrite fold_left_app. Qed.

(** X2.  The dictionary that [doComparison] builds from a run maps each
    identity to the last test of the run that has it: a later test with the
    same identity replaces an earlier one, so the dictionary can be smaller
    than the run. *)
Theorem make_testDictionary_last prefix (tests : list GPUVerifyTestKernel) :
  (forall c,
     make_testDictionary prefix tests !! c =
     last (filter (fun test => cPath_of prefix test = c) tests)) /\
  (size (make_testDictionary prefix tests) <= length tests)%nat.
Proof.
  induction tests as [|test tests [IH1 IH2]] using rev_ind.
  - split; [|done]. intros c. apply lookup_empty.
  - rewrite make_testDictionary_snoc. split.
    + intros c. rewrite filter_app, filter_cons, filter_nil.
      destruct (decide (cPath_of prefix test = c)) as [<-|Hne].
      * rewrite lookup_insert_eq. by rewrite last_snoc.
      * rewrite lookup_insert_ne by done. rewrite app_nil_r. apply IH1.
    + rewrite length_app. simpl.
      pose proof (map_size_insert (cPath_of prefix test) test
                    (make_testDictionary prefix tests)) as Hs.
      destruct (make_testDictionary prefix tests !! cPath_of prefix test);
        rewrite Hs; simpl; lia.
Qed.

(** ** Verdicts *)

Lemma no_elements_nil {A} (l : list A) : (forall x, ~ In x l) -> l = [].
Proof. destruct l as [|x l]; [done|]. intros H. destruct (H x). by left. Qed.

(** The verdict is equal exactly when the three sets are empty. *)
Lemma doComparison_eq_0 old new prefix :
  let oldD := make_testDictionary prefix old in
  let newD := make_testDictionary prefix new in
  doComparison old new prefix = 0 <->
  changed_ids oldD newD = ∅ /\ missing_ids oldD newD = ∅ /\ new_ids oldD newD = ∅.
Proof.
  intros oldD newD. unfold doComparison.
  rewrite doComparison_loops_eq. fold oldD newD. simpl.
  assert (Hsz : forall X : gset string, Z.of_nat (size X) =? 0 = true <-> X = ∅).
  { intros X. rewrite Z.eqb_eq. split.
    - intros H. apply leibniz_equiv, size_empty_iff. lia.
    - intros ->. by rewrite size_empty. }
  destruct (existsb (is_worse newD) (map_to_list oldD)) eqn:Hw.
  - split; [done|]. intros (Hc & Hm & _). exfalso.
    apply existsb_is_worse in Hw as [(c & o & n & Ho & Hn & Ht & Hne)|(c & [o Ho] & Hn)].
    + assert (c ∈ changed_ids oldD newD) as Hin; [|set_solver].
      apply elem_of_filter_dom. exists o. split; [done|].
      apply is_changed_spec. exists n. split; [done|congruence].
    + assert (c ∈ missing_ids oldD newD) as Hin; [|set_solver].
      apply elem_of_filter_dom. exists o. split; [done|]. by apply is_absent_spec.
  - rewrite <- !Hsz.
    destruct (Z.of_nat (size (changed_ids oldD newD)) =? 0);
      destruct (Z.of_nat (size (missing_ids oldD newD)) =? 0);
      destruct (Z.of_nat (size (new_ids oldD newD)) =? 0); simpl; naive_solver.
Qed.

Lemma elem_of_changed_ids oldD newD c :
  c ∈ changed_ids oldD newD <->
  exists o n, oldD !! c = Some o /\ newD !! c = Some n /\ testPassed o <> testPassed n.
Proof.
  unfold changed_ids. rewrite elem_of_filter_dom.
  setoid_rewrite is_changed_spec. naive_solver.
Qed.

Lemma elem_of_missing_ids oldD newD c :
  c ∈ missing_ids oldD newD <-> is_Some (oldD !! c) /\ newD !! c = None.
Proof.
  unfold missing_ids. rewrite elem_of_filter_dom.
  setoid_rewrite is_absent_spec. unfold is_Some. naive_solver.
Qed.

Lemma elem_of_new_ids oldD newD c :
  c ∈ new_ids oldD newD <-> is_Some (newD !! c) /\ oldD !! c = None.
Proof.
  unfold new_ids. rewrite elem_of_filter_dom.
  setoid_rewrite is_absent_spec. unfold is_Some. naive_solver.
Qed.

(** X3.  When every identity of the old run is in the new run with the same
    [testPassed], nothing is reported changed or missing and the verdict is
    never regression: it is equal (0) if the new run has no other identity,
    and improvement (-1) if it has one. *)
Theorem doComparison_unchanged (old new : list GPUVerifyTestKernel) (prefix : string) :
  let oldD := make_testDictionary prefix old in
  let newD := make_testDictionary prefix new in
  let st := doComparison_loops old new prefix in
  (forall c o, oldD !! c = Some o ->
     exists n, newD !! c = Some n /\ testPassed n = testPassed o) ->
  changedTestCounter st = 0 /\ missingTestCounter st = 0 /\
  changeIsWorse st = false /\
  ((forall c, is_Some (newD !! c) -> is_Some (oldD !! c)) ->
   doComparison old new prefix = 0 /\ newTestCounter st = 0 /\ warnings st = []) /\
  ((exists c, is_Some (newD !! c) /\ oldD !! c = None) ->
   doComparison old new prefix = -1 /\ 0 < newTestCounter st).
Proof.
  intros oldD newD st Hsame.
  assert (Hc : changed_ids oldD newD = ∅).
  { apply set_eq. intros c. rewrite elem_of_changed_ids. split; [|set_solver].
    intros (o & n & Ho & Hn & Hne). destruct (Hsame _ _ Ho) as (n' & Hn' & Heq).
    congruence. }
  assert (Hm : missing_ids oldD newD = ∅).
  { apply set_eq. intros c. rewrite elem_of_missing_ids. split; [|set_solver].
    intros ([o Ho] & Hn). destruct (Hsame _ _ Ho) as (n' & Hn' & _). congruence. }
  assert (Hw : existsb (is_worse newD) (map_to_list oldD) = false).
  { destruct (existsb _ _) eqn:E; [|done]. exfalso.
    apply existsb_is_worse in E as [(c & o & n & Ho & Hn & Ht & Hne)|(c & [o Ho] & Hn)].
    - destruct (Hsame _ _ Ho) as (n' & Hn' & Heq). congruence.
    - destruct (Hsame _ _ Ho) as (n' & Hn' & _). congruence. }
  assert (Hst : st = doComparison_loops old new prefix) by reflexivity.
  rewrite doComparison_loops_eq in Hst. fold oldD newD in Hst.
  rewrite Hc, Hm, Hw, size_empty in Hst.
  split; [by rewrite Hst|]. split; [by rewrite Hst|]. split; [by rewrite Hst|].
  split.
  - intros Hsub.
    assert (Hn : new_ids oldD newD = ∅).
    { apply set_eq. intros c. rewrite elem_of_new_ids. split; [|set_solver].
      intros [Hnew Hold]. apply Hsub in Hnew. rewrite Hold in Hnew. by destruct Hnew. }
    split; [by apply doComparison_eq_0|]. rewrite Hst; simpl.
    rewrite Hn, size_empty. split; [done|].
    apply no_elements_nil. intros w. rewrite in_app_iff, In_old_warning, In_new_warning.
    intros [(c & o & Ho & [[_ H]|[_ H]])|(c & Hnew & Hold & _)].
    + apply is_changed_spec in H as (n & Hn' & Hne).
      destruct (Hsame _ _ Ho) as (n' & Hn'' & Heq). congruence.
    + apply is_absent_spec in H. destruct (Hsame _ _ Ho) as (n' & Hn'' & _). congruence.
    + apply Hsub in Hnew. rewrite Hold in Hnew. by destruct Hnew.
  - intros (c & Hnew & Hold).
    assert (Hin : c ∈ new_ids oldD newD) by (by apply elem_of_new_ids).
    assert (size (new_ids oldD newD) <> 0%nat) as Hsz.
    { intros Hz. apply size_empty_iff in Hz. set_solver. }
    unfold doComparison. fold st. rewrite Hst; simpl.
    destruct (Z.of_nat (size (new_ids oldD newD)) =? 0) eqn:E; [lia|].
    split; [done|lia].
Qed.

Lemma doComparison_unchanged_witness :
  (forall c o,
     make_testDictionary "testsuite" [kernel_passed] !! c = Some o ->
     exists n, make_testDictionary "testsuite" [kernel_passed] !! c = Some n /\
               testPassed n = testPassed o) /\
  doComparison [kernel_passed] [kernel_passed] "testsuite" = 0.
Proof.
  assert (H : forall c o,
     make_testDictionary "testsuite" [kernel_passed] !! c = Some o ->
     exists n, make_testDictionary "testsuite" [kernel_passed] !! c = Some n /\
               testPassed n = testPassed o) by eauto.
  split; [exact H|].
  destruct (doComparison_unchanged [kernel_passed] [kernel_passed] "testsuite" H)
    as (_ & _ & _ & Heq & _).
  apply Heq. auto.
Defined.

(** X4.  Comparing two runs the other way round keeps the number of changed
    tests and exchanges the numbers of missing and new tests; the verdict is
    equal in one direction exactly when it is in the other. *)
Theorem doComparison_swap (old new : list GPUVerifyTestKernel) (prefix : string) :
  let forth := doComparison_loops old new prefix in
  let back := doComparison_loops new old prefix in
  changedTestCounter forth = changedTestCounter back /\
  missingTestCounter forth = newTestCounter back /\
  newTestCounter forth = missingTestCounter back /\
  (doComparison old new prefix = 0 <-> doComparison new old prefix = 0).
Proof.
  intros forth back.
  set (oldD := make_testDictionary prefix old).
  set (newD := make_testDictionary prefix new).
  assert (Hc : changed_ids oldD newD = changed_ids newD oldD).
  { apply set_eq. intros c. rewrite !elem_of_changed_ids. naive_solver. }
  assert (Hm : missing_ids oldD newD = new_ids newD oldD).
  { apply set_eq. intros c. by rewrite elem_of_missing_ids, elem_of_new_ids. }
  assert (Hn : new_ids oldD newD = missing_ids newD oldD).
  { apply set_eq. intros c. by rewrite elem_of_missing_ids, elem_of_new_ids. }
  unfold forth, back. rewrite !doComparison_loops_eq. simpl.
  fold oldD newD. rewrite Hc, Hm, Hn. repeat split; try done.
  - intros H. apply doComparison_eq_0 in H as (H1 & H2 & H3). apply doComparison_eq_0.
    fold oldD newD in H1, H2, H3. fold oldD newD.
    rewrite <- Hc, <- Hm, <- Hn. done.
  - intros H. apply doComparison_eq_0 in H as (H1 & H2 & H3). apply doComparison_eq_0.
    fold oldD newD in H1, H2, H3. fold oldD newD.
    rewrite Hc, Hm, Hn. done.
Qed.

(** ** What the parser leaves *)

Section ParserExtras.

Variable compiled : Type.
Variable re_compile : list re_flag -> string -> compiled + string.
Variable dirname : string -> string.
Variable cls : GPUVerifyErrorCodes.

Implicit Types (rules : gmap string (option bool)) (lines : list string).

Local Abbreviation parse_regex_lines := (parse_regex_lines compiled re_compile).
Local Abbreviation init :=
  (GPUVerifyTestKernel_init compiled re_compile dirname cls).
Local Abbreviation valid_key := (valid_key re_compile).

Lemma parse_regex_lines_post kernelPath lines :
  forall n rules rules',
    parse_regex_lines kernelPath n rules lines = Ok rules' ->
    forall k status, rules' !! k = Some status ->
      rules !! k = Some status \/
      (status = None /\ k <> EmptyString /\
       exists matcher, re_compile [] k = inl matcher).
Proof.
  induction lines as [|l lines IH]; intros n rules rules'.
  - simpl. intros [= <-]. auto.
  - rewrite parse_regex_lines_cons.
    destruct (startswith "//" (drop_last l)) eqn:Hs;
      [rewrite andb_true_l|intros [= <-]; auto].
    destruct (2 <? String.length (drop_last l))%nat eqn:Hl; [|intros [= <-]; auto].
    destruct (re_compile [] (slice_from 2 (drop_last l))) as [matcher|] eqn:Hc;
      [|discriminate].
    intros Hp k status Hk. destruct (IH _ _ _ Hp _ _ Hk) as [Hin|?]; [|auto].
    destruct (decide (slice_from 2 (drop_last l) = k)) as [<-|Hne].
    + rewrite lookup_insert_eq in Hin. injection Hin as <-. right.
      split; [done|]. split; [by apply slice_from_2_nonempty|eauto].
    + rewrite lookup_insert_ne in Hin by done. auto.
Qed.

(** The shape of every successful parse. *)
Lemma init_inv kernelPath fileObject test :
  init kernelPath fileObject = Ok test ->
  exists expected args rules,
    parse_expectedOutcome cls kernelPath (fst (readline fileObject)) = Ok expected /\
    parse_cmdArgs dirname kernelPath (fst (readline (snd (readline fileObject))))
      = Ok args /\
    parse_regex_lines kernelPath 3 ∅ (snd (readline (snd (readline fileObject))))
      = Ok rules /\
    test = {| path := kernelPath;
              expectedReturnCode := expected;
              gpuverifyCmdArgs := args;
              regex := rules;
              testPassed := None;
              returnedCode := None;
              gpuverifyReturnCode := None |}.
Proof.
  unfold GPUVerifyTestKernel_init.
  destruct fileObject as [|l1 [|l2 rest]]; simpl;
    (destruct (parse_expectedOutcome cls kernelPath _) as [expected|];
       [simpl|done]); try done.
  destruct (parse_cmdArgs dirname kernelPath l2) as [args|]; [simpl|done].
  destruct (parse_regex_lines kernelPath 3 ∅ rest) as [rules|]; [simpl|done].
  intros [= <-]. by exists expected, args, rules.
Qed.

(** X5.  A test that the parser returns keeps the path it was given, has
    not been executed, and has only unevaluated rules; [--use-cvc4] is its
    last argument; and every rule is a pattern of at least one character
    that [re.compile] accepts. *)
Theorem init_postconditions kernelPath fileObject test :
  init kernelPath fileObject = Ok test ->
  path test = kernelPath /\
  hasBeenExecuted test = false /\
  returnedCode test = None /\ gpuverifyReturnCode test = None /\
  unevaluated test /\
  last (gpuverifyCmdArgs test) = Some "--use-cvc4"%string /\
  (forall k, is_Some (regex test !! k) ->
     k <> EmptyString /\ exists matcher, re_compile [] k = inl matcher).
Proof.
  intros Hinit.
  apply init_inv in Hinit as (expected & args & rules & _ & Hargs & Hrules & ->).
  simpl. repeat split; try done.
  - intros k status Hk. simpl in Hk.
    destruct (parse_regex_lines_post _ _ _ _ _ Hrules _ _ Hk) as [H|[H _]]; [|done].
    by rewrite lookup_empty in H.
  - unfold parse_cmdArgs in Hargs.
    destruct (negb _); [done|].
    destruct (mapM _ _) as [a|]; [simpl in Hargs|done].
    injection Hargs as <-. apply last_snoc.
  - destruct H as [status Hk].
    destruct (parse_regex_lines_post _ _ _ _ _ Hrules _ _ Hk) as [H|(_ & H & _)]; [|done].
    by rewrite lookup_empty in H.
  - destruct H as [status Hk].
    destruct (parse_regex_lines_post _ _ _ _ _ Hrules _ _ Hk) as [H|(_ & _ & H)]; [|done].
    by rewrite lookup_empty in H.
Qed.

(** *** Rule lines *)

Lemma drop_last_snoc s c : drop_last (String.app s (String c EmptyString)) = s.
Proof.
  induction s as [|a s IH]; [done|].
  rewrite string_app_cons. simpl. rewrite IH.
  destruct s; by rewrite ?string_app_nil, ?string_app_cons.
Qed.

Lemma drop_last_prefix s : exists t, s = String.app (drop_last s) t.
Proof.
  induction s as [|a s [t IH]]; [by exists EmptyString|].
  destruct s as [|b s].
  - by exists (String a EmptyString).
  - exists t. simpl in *. rewrite string_app_cons. by rewrite <- IH.
Qed.

Lemma rule_line_shape key last :
  key <> EmptyString ->
  startswith "//" (drop_last (rule_line key last)) = true /\
  (2 <? String.length (drop_last (rule_line key last)))%nat = true /\
  slice_from 2 (drop_last (rule_line key last)) = key.
Proof.
  intros Hkey.
  assert (drop_last (rule_line key last) = String "/" (String "/" key)) as ->.
  { unfold rule_line.
    change (String "/" (String "/" (String.app key (String last EmptyString))))
      with (String.app (String "/" (String "/" key)) (String last EmptyString)).
    apply drop_last_snoc. }
  split; [|split].
  - apply prefix_spec. by exists key.
  - destruct key; [done|reflexivity].
  - reflexivity.
Qed.

Lemma not_a_comment_line l :
  startswith "//" l = false -> startswith "//" (drop_last l) = false.
Proof.
  intros Hl. destruct (startswith "//" (drop_last l)) eqn:Hd; [|done].
  apply prefix_spec in Hd as [after Hd]. destruct (drop_last_prefix l) as [t Ht].
  assert (startswith "//" l = true); [|congruence].
  apply prefix_spec. exists (String.app after t).
  rewrite Ht at 1. rewrite Hd. by rewrite string_app_assoc.
Qed.

(** X6.  A pattern that [re.compile] rejects is reported with the number of
    its line: when the lines before it from line [n] on are rule lines with
    valid patterns, the error names line [n] plus their number, whatever
    follows; for a whole file that is line 3 plus their number. *)
Theorem invalid_pattern_line kernelPath keys bad last e rest :
  Forall valid_key keys ->
  bad <> EmptyString ->
  re_compile [] bad = inr e ->
  let lines := map (fun kc => rule_line (fst kc) (snd kc)) keys
               ++ rule_line bad last :: rest in
  let message := String.concat EmptyString
                   ["Invalid Regex ("; "<class 'sre_constants.error'>";
                    " : "; e; ")"]%string in
  (forall n rules,
     parse_regex_lines kernelPath n rules lines =
     Raise (KernelParseError (n + Z.of_nat (length keys)) kernelPath message)) /\
  (forall line1 line2 expected args,
     parse_expectedOutcome cls kernelPath line1 = Ok expected ->
     parse_cmdArgs dirname kernelPath line2 = Ok args ->
     init kernelPath (line1 :: line2 :: lines) =
     Raise (KernelParseError (3 + Z.of_nat (length keys)) kernelPath message)).
Proof.
  intros Hkeys Hbad He lines message.
  assert (Hloop : forall n rules,
     parse_regex_lines kernelPath n rules lines =
     Raise (KernelParseError (n + Z.of_nat (length keys)) kernelPath message)).
  { unfold lines. clear lines. induction Hkeys as [|[k c] keys [Hk [m Hm]] _ IH];
      intros n rules.
    - simpl map. rewrite app_nil_l, parse_regex_lines_cons.
      destruct (rule_line_shape bad last Hbad) as (-> & -> & ->).
      simpl. rewrite He. by rewrite Z.add_0_r.
    - simpl map. rewrite <- app_comm_cons, parse_regex_lines_cons.
      simpl in Hk, Hm.
      destruct (rule_line_shape k c Hk) as (-> & -> & ->). simpl andb.
      rewrite Hm, IH. do 2 f_equal. simpl length. lia. }
  split; [exact Hloop|].
  intros line1 line2 expected args H1 H2.
  unfold GPUVerifyTestKernel_init. simpl. rewrite H1. simpl. rewrite H2. simpl.
  by rewrite Hloop.
Qed.

(** X7.  The rules of a kernel file.  Take lines that are each [//], a
    pattern that is not empty and that [re.compile] accepts, and one more
    character, followed by the end of the file or by a line that is not a
    rule line: one that is not a comment, or a comment with no pattern.
    Then exactly the patterns of those lines are registered, unevaluated,
    each under the text of its line without the marker and without the
    last character, be it the newline or, when the file ends without one,
    the last character of the pattern; what follows is not read and no
    other rule changes. *)
Theorem rules_registered kernelPath keys rest :
  Forall valid_key keys ->
  (rest = [] \/
   exists l rest', rest = l :: rest' /\ is_rule_line l = false) ->
  forall n rules,
    exists rules',
      parse_regex_lines kernelPath n rules
        (map (fun kc => rule_line (fst kc) (snd kc)) keys ++ rest) = Ok rules' /\
      forall k, rules' !! k =
                if decide (k ∈ map fst keys) then Some None else rules !! k.
Proof.
  intros Hkeys Hrest. induction Hkeys as [|[k c] keys [Hk [m Hm]] _ IH];
    intros n rules.
  - simpl map. rewrite app_nil_l. exists rules. split.
    + destruct Hrest as [->|(l & rest' & -> & Hl)]; [done|].
      rewrite parse_regex_lines_cons. unfold is_rule_line in Hl.
      by rewrite Hl.
    + intros k'. rewrite decide_False; [done|]. by intros ?%elem_of_nil.
  - simpl map. rewrite <- app_comm_cons, parse_regex_lines_cons.
    simpl in Hk, Hm.
    destruct (rule_line_shape k c Hk) as (-> & -> & ->). simpl andb. rewrite Hm.
    destruct (IH (n + 1) (<[k := None]> rules)) as (rules' & -> & Hlook).
    exists rules'. split; [done|]. intros k'. rewrite Hlook.
    destruct (decide (k' = k)) as [->|Hne].
    + rewrite lookup_insert_eq.
      rewrite (decide_True (P := k ∈ k :: map fst keys)) by (by left).
      by destruct (decide _).
    + rewrite lookup_insert_ne by done.
      destruct (decide (k' ∈ map fst keys)) as [Hin|Hnin].
      * rewrite decide_True; [done|]. by right.
      * rewrite decide_False; [done|]. intros [?|?]%elem_of_cons; done.
Qed.

(** X8.  A file that ends too early is a parse error, never a test: an
    empty file fails at line 1, and a file whose first line is valid fails
    at line 2 when it has no second line or when that line does not start
    with the comment marker. *)
Theorem short_file_errors kernelPath line1 expected :
  (exists message,
     init kernelPath [] = Raise (KernelParseError 1 kernelPath message)) /\
  (parse_expectedOutcome cls kernelPath line1 = Ok expected ->
   exists message,
     init kernelPath [line1] = Raise (KernelParseError 2 kernelPath message) /\
     forall line2 rest,
       startswith "//" line2 = false ->
       init kernelPath (line1 :: line2 :: rest) =
       Raise (KernelParseError 2 kernelPath message)).
Proof.
  split.
  - eexists. reflexivity.
  - intros H1. eexists. split.
    + unfold GPUVerifyTestKernel_init. simpl. rewrite H1. reflexivity.
    + intros line2 rest H2. unfold GPUVerifyTestKernel_init. simpl. rewrite H1. simpl.
      unfold parse_cmdArgs. rewrite H2. reflexivity.
Qed.

End ParserExtras.

(** [init_postconditions] at work on a kernel that expects success,
    passes one option to the tool and has one rule. *)
Lemma init_postconditions_witness :
  exists test,
    GPUVerifyTestKernel_init string literal_compile (fun p => p) sample_cls
      "kernel.cl" [line "//pass"; line "// --local_size=64"; line "//Verified"]
    = Ok test /\
    gpuverifyCmdArgs test = ["--local_size=64"; "--use-cvc4"]%string /\
    last (gpuverifyCmdArgs test) = Some "--use-cvc4"%string /\
    hasBeenExecuted test = false.
Proof.
  eexists. split; [reflexivity|]. split; [reflexivity|].
  pose proof (init_postconditions string literal_compile (fun p => p) sample_cls
                "kernel.cl"
                [line "//pass"; line "// --local_size=64"; line "//Verified"]
                _ eq_refl) as (_ & Hexec & _ & _ & _ & Hlast & _).
  split; [exact Hlast|exact Hexec].
Defined.

(** [invalid_pattern_line] at work: the second rule of the file is the
    pattern that the sample engine rejects, it is on line 4. *)
Lemma invalid_pattern_line_witness :
  GPUVerifyTestKernel_init string literal_compile (fun p => p) sample_cls
    "kernel.cl" [line "//pass"; line "//"; line "//Verified"; line "//("]
  = Raise (KernelParseError 4 "kernel.cl"
             "Invalid Regex (<class 'sre_constants.error'> : unbalanced parenthesis)").
Proof.
  assert (Hkeys : Forall (valid_key literal_compile) [("Verified"%string, newline)]).
  { constructor; [|constructor]. split; [done|]. by eexists. }
  destruct (invalid_pattern_line string literal_compile (fun p => p) sample_cls
              "kernel.cl" [("Verified"%string, newline)] "(" newline
              "unbalanced parenthesis" [] Hkeys ltac:(done) eq_refl)
    as [_ Hinit].
  exact (Hinit (line "//pass") (line "//") 0 ["--use-cvc4"%string]
           eq_refl eq_refl).
Defined.

(** [rules_registered] at work: two rules, then a comment without a
    pattern, which ends the rules, so that the comment after it is no
    rule. *)
Lemma rules_registered_witness :
  exists rules',
    parse_regex_lines string literal_compile "kernel.cl" 3 ∅
      [line "//Verified"; line "//kernel.cl"; line "//"; line "//ignored"]
    = Ok rules' /\
    rules' !! "Verified"%string = Some None /\
    rules' !! "kernel.cl"%string = Some None /\
    rules' !! "ignored"%string = None.
Proof.
  assert (Hkeys : Forall (valid_key literal_compile)
                    [("Verified"%string, newline); ("kernel.cl"%string, newline)]).
  { repeat constructor; try done; by eexists. }
  destruct (rules_registered string literal_compile "kernel.cl"
              [("Verified"%string, newline); ("kernel.cl"%string, newline)]
              [line "//"; line "//ignored"] Hkeys
              ltac:(right; eexists _, _; split; reflexivity) 3 ∅)
    as (rules' & Hparse & Hlook).
  exists rules'. split; [exact Hparse|].
  split; [|split].
  - rewrite Hlook. rewrite decide_True; [done|]. by left.
  - rewrite Hlook. rewrite decide_True; [done|]. right; by left.
  - rewrite Hlook. rewrite decide_False; [done|].
    intros [?|[?|?%elem_of_nil]%elem_of_cons]%elem_of_cons; done.
Defined.

(** [short_file_errors] at work: a kernel whose header is only its first
    line, followed at once by code. *)
Lemma short_file_errors_witness :
  exists message,
    GPUVerifyTestKernel_init string literal_compile (fun p => p) sample_cls
      "kernel.cl" [line "//pass"; line "__kernel void foo() {}"]
    = Raise (KernelParseError 2 "kernel.cl" message).
Proof.
  destruct (short_file_errors string literal_compile (fun p => p) sample_cls
              "kernel.cl" (line "//pass") 0) as [_ Hshort].
  destruct (Hshort eq_refl) as (message & _ & Hline2).
  exists message. exact (Hline2 (line "__kernel void foo() {}") [] eq_refl).
Defined.

(** ** Further properties of the argument templates *)

Lemma string_app_nil_r s : String.app s EmptyString = s.
Proof. induction s as [|c s IH]; [done|]. by rewrite string_app_cons, IH. Qed.

Lemma rev_app_app s t :
  String.rev_app s t = String.app (String.rev s) t.
Proof.
  unfold String.rev. revert t. induction s as [|c s IH]; intros t; simpl.
  - done.
  - rewrite IH, (IH (String c EmptyString)), string_app_assoc.
    by rewrite string_app_cons.
Qed.

Lemma rev_cons c s :
  String.rev (String c s) = String.app (String.rev s) (String c EmptyString).
Proof. unfold String.rev at 1. simpl. apply rev_app_app. Qed.

Lemma contains_char_app c s t :
  contains_char c (String.app s t) = contains_char c s || contains_char c t.
Proof.
  induction s as [|d s IH]; [done|].
  rewrite string_app_cons. simpl. by destruct (Ascii.eqb c d).
Qed.

Lemma contains_char_rev c s : contains_char c (String.rev s) = contains_char c s.
Proof.
  induction s as [|d s IH]; [done|].
  rewrite rev_cons, contains_char_app, IH. simpl.
  destruct (Ascii.eqb c d), (contains_char c s); done.
Qed.

Lemma words_go_no_char c cur s :
  from_option (fun w => contains_char c w = false) True cur ->
  contains_char c s = false ->
  Forall (fun w => contains_char c w = false) (String.words_go cur s).
Proof.
  revert cur. induction s as [|d s IH]; intros cur Hcur Hs; simpl.
  - destruct cur as [w|]; simpl; [|constructor].
    constructor; [|constructor]. by rewrite contains_char_rev.
  - simpl in Hs. destruct (Ascii.eqb c d) eqn:Hcd; [done|].
    destruct (Ascii.is_space d).
    + apply Forall_app. split; [|by apply IH].
      destruct cur as [w|]; simpl; [|constructor].
      constructor; [|constructor]. by rewrite contains_char_rev.
    + apply IH; [|done]. destruct cur as [w|]; simpl in *; by rewrite Hcd.
Qed.

Lemma mapM_Ok_id {A} (f : A -> result A) (l : list A) :
  Forall (fun x => f x = Ok x) l -> mapM f l = Ok l.
Proof.
  induction 1 as [|x l Hx _ IH]; [done|]. simpl. rewrite Hx. simpl.
  by rewrite IH.
Qed.

Lemma substitute_text mapping pre s :
  contains_char "$" pre = false ->
  substitute_from mapping TText (String.app pre s) =
  String.app pre <$> substitute_from mapping TText s.
Proof.
  induction pre as [|c pre IH]; intros Hpre.
  - change (String.app EmptyString s) with s.
    by destruct (substitute_from mapping TText s).
  - change (contains_char "$" (String c pre))
      with (if Ascii.eqb "$" c then true else contains_char "$" pre) in Hpre.
    destruct (Ascii.eqb "$" c) eqn:Hc; [done|].
    rewrite Ascii.eqb_sym in Hc. rewrite string_app_cons. simpl. rewrite Hc.
    rewrite IH by done. by destruct (substitute_from mapping TText s).
Qed.

Lemma substitute_no_delimiter mapping s :
  contains_char "$" s = false -> substitute_from mapping TText s = Ok s.
Proof.
  intros Hs. rewrite <- (string_app_nil_r s) at 1.
  rewrite substitute_text by done. simpl. by rewrite string_app_nil_r.
Qed.

Lemma substitute_braced mapping acc name post :
  all_chars is_id_char name = true ->
  substitute_from mapping (TBraced acc)
    (String.app name (String "}" post)) =
  (v ← template_lookup mapping (String.app (String.rev acc) name);
   String.app v <$> substitute_from mapping TText post).
Proof.
  revert acc. induction name as [|c name IH]; intros acc Hname.
  - change (String.app EmptyString (String "}" post)) with (String "}" post).
    rewrite string_app_nil_r. reflexivity.
  - simpl in Hname. apply andb_true_iff in Hname as [Hc Hname].
    rewrite string_app_cons.
    change (substitute_from mapping (TBraced acc)
              (String c (String.app name (String "}" post))))
      with (if is_id_char c
            then substitute_from mapping (TBraced (String c acc))
                   (String.app name (String "}" post))
            else if Ascii.eqb c "}"
                 then v ← template_lookup mapping (String.rev acc);
                      String.app v <$> substitute_from mapping TText
                                         (String.app name (String "}" post))
                 else Raise invalid_placeholder).
    rewrite Hc, IH by done. rewrite rev_cons, string_app_assoc.
    by rewrite string_app_cons.
Qed.

Lemma substitute_named mapping acc name post :
  all_chars is_id_char name = true ->
  stops is_id_char post = true ->
  substitute_from mapping (TNamed acc) (String.app name post) =
  (v ← template_lookup mapping (String.app (String.rev acc) name);
   String.app v <$> substitute_from mapping TText post).
Proof.
  revert acc. induction name as [|c name IH]; intros acc Hname Hpost.
  - change (String.app EmptyString post) with post. rewrite string_app_nil_r.
    destruct post as [|c post]; simpl.
    + destruct (template_lookup mapping (String.rev acc)); simpl; [|done].
      by rewrite string_app_nil_r.
    + simpl in Hpost. apply negb_true_iff in Hpost. by rewrite Hpost.
  - simpl in Hname. apply andb_true_iff in Hname as [Hc Hname].
    rewrite string_app_cons. simpl. rewrite Hc, IH by done.
    rewrite rev_cons, string_app_assoc. by rewrite string_app_cons.
Qed.

Section TemplateProperties.

Variable dirname : string -> string.

(** X9.  The test for a [$] before the substitution changes nothing: the
    template leaves a text without [$] as it is, so every argument is what
    [Template.substitute] makes of it, with its errors. *)
Theorem delimiter_test_is_redundant kernelPath arg :
  substitute_arg dirname kernelPath arg =
  Template_substitute (cmdArgsSubstitution dirname kernelPath) arg.
Proof.
  unfold substitute_arg, Template_substitute.
  destruct (contains_char "$" arg) eqn:Harg; [done|].
  by rewrite substitute_no_delimiter.
Qed.

(** X10.  The one variable of the arguments: [${KERNEL_DIR}], and
    [$KERNEL_DIR] before a character that cannot continue an identifier,
    stand for the directory of the kernel's path; any other identifier in
    their place, also [KERNEL_DIR] in another case, raises [KeyError] with
    that identifier, whatever follows it. *)
Theorem kernel_dir_substitution kernelPath pre name post :
  contains_char "$" pre = false ->
  is_identifier name = true ->
  let outcome :=
    if String.eqb name "KERNEL_DIR"
    then rest ← Template_substitute (cmdArgsSubstitution dirname kernelPath) post;
         Ok (String.app pre (String.app (dirname kernelPath) rest))
    else Raise (KeyError (KStr name)) in
  substitute_arg dirname kernelPath
    (String.app pre (String "$" (String "{" (String.app name (String "}" post)))))
  = outcome /\
  (stops is_id_char post = true ->
   substitute_arg dirname kernelPath
     (String.app pre (String "$" (String.app name post)))
   = outcome).
Proof.
  intros Hpre Hname outcome.
  destruct name as [|c name]; [done|]. simpl in Hname.
  apply andb_true_iff in Hname as [Hc Hname].
  assert (Hout :
    String.app pre <$>
      (v ← template_lookup (cmdArgsSubstitution dirname kernelPath) (String c name);
       String.app v <$>
         substitute_from (cmdArgsSubstitution dirname kernelPath) TText post)
    = outcome).
  { unfold outcome, template_lookup, cmdArgsSubstitution, Template_substitute.
    destruct (String.eqb_spec (String c name) "KERNEL_DIR") as [->|Hne].
    - rewrite lookup_singleton_eq. simpl.
      by destruct (substitute_from _ TText post).
    - rewrite lookup_singleton_ne by done. reflexivity. }
  assert (Hsub : forall arg,
    substitute_arg dirname kernelPath arg =
    Template_substitute (cmdArgsSubstitution dirname kernelPath) arg).
  { intros arg. unfold substitute_arg, Template_substitute.
    destruct (contains_char "$" arg) eqn:Harg; [done|].
    by rewrite substitute_no_delimiter. }
  split.
  - rewrite Hsub. unfold Template_substitute.
    rewrite substitute_text by done. rewrite <- Hout. f_equal.
    rewrite string_app_cons.
    change (substitute_from ?m TText (String "$" (String "{" (String c ?r))))
      with (if is_id_start c
            then substitute_from m (TBraced (String c EmptyString)) r
            else Raise invalid_placeholder).
    rewrite Hc. by rewrite substitute_braced.
  - intros Hpost. rewrite Hsub. unfold Template_substitute.
    rewrite substitute_text by done. rewrite <- Hout. f_equal.
    rewrite string_app_cons.
    assert (Hd : Ascii.eqb c "$" = false).
    { destruct (Ascii.eqb_spec c "$") as [->|]; done. }
    change (substitute_from ?m TText (String "$" (String c ?r)))
      with (if Ascii.eqb c "$"
            then String c <$> substitute_from m TText r
            else if is_id_start c
                 then substitute_from m (TNamed (String c EmptyString)) r
                 else if Ascii.eqb c "{" then substitute_from m TBraceOpen r
                      else Raise invalid_placeholder).
    rewrite Hd, Hc. by rewrite substitute_named.
Qed.

(** X11.  A second line without [$] gives the tool its words, split at
    white space, in their order, followed by [--use-cvc4]; no argument is
    changed and nothing is raised. *)
Theorem plain_arguments kernelPath text :
  contains_char "$" text = false ->
  parse_cmdArgs dirname kernelPath (String "/" (String "/" text)) =
  Ok (String.words text ++ ["--use-cvc4"%string]).
Proof.
  intros Htext. unfold parse_cmdArgs.
  assert (startswith "//" (String "/" (String "/" text)) = true) as ->.
  { apply prefix_spec. by exists text. }
  simpl negb. cbv iota.
  change (slice_from 2 (String "/" (String "/" text))) with text.
  rewrite mapM_Ok_id; [done|].
  eapply Forall_impl; [by apply (words_go_no_char "$" None text)|].
  intros w Hw. simpl in Hw. unfold substitute_arg. by rewrite Hw.
Qed.

End TemplateProperties.

(** [kernel_dir_substitution] at work on an include path, with and without
    braces, and on the variable in lower case. *)
Lemma kernel_dir_substitution_witness :
  let dirname := fun _ : string => "/tests/a"%string in
  substitute_arg dirname "/tests/a/kernel.cl" "-I${KERNEL_DIR}/include"
  = Ok "-I/tests/a/include"%string /\
  substitute_arg dirname "/tests/a/kernel.cl" "-I$KERNEL_DIR/include"
  = Ok "-I/tests/a/include"%string /\
  substitute_arg dirname "/tests/a/kernel.cl" "-I${kernel_dir}/include"
  = Raise (KeyError (KStr "kernel_dir")).
Proof.
  intros dirname.
  destruct (kernel_dir_substitution dirname "/tests/a/kernel.cl" "-I"
              "KERNEL_DIR" "/include" eq_refl eq_refl) as [Hbraced Hnamed].
  destruct (kernel_dir_substitution dirname "/tests/a/kernel.cl" "-I"
              "kernel_dir" "/include" eq_refl eq_refl) as [Hlower _].
  split; [exact Hbraced|]. split; [exact (Hnamed eq_refl)|exact Hlower].
Defined.

(** [plain_arguments] at work on a second line with two options. *)
Lemma plain_arguments_witness :
  parse_cmdArgs (fun p => p) "kernel.cl"
    (line "// --local_size=64  --num_groups=8")
  = Ok ["--local_size=64"; "--num_groups=8"; "--use-cvc4"]%string.
Proof.
  exact (plain_arguments (fun p => p) "kernel.cl"
           (line " --local_size=64  --num_groups=8") eq_refl).
Defined.

(** ** Further properties of the registries *)

Lemma find_largest_In first nums :
  find_largest first nums = first \/ In (find_largest first nums) nums.
Proof.
  unfold find_largest. revert first.
  induction nums as [|x nums IH]; intros first; [by left|].
  simpl. destruct (IH (if x >? first then x else first)) as [->|Hin].
  - destruct (x >? first); [right; by left|by left].
  - right. by right.
Qed.

(** X12.  The code of a pattern mismatch is the largest code of the tool
    plus one, and the registry names it [REGEX_MISMATCH_ERROR]: no name of
    the tool can take its place in the reverse dictionary. *)
Theorem regex_mismatch_code base cls :
  static_init base = Ok cls ->
  exists r,
    REGEX_MISMATCH_ERROR cls = Ok r /\
    (exists n, In (n, r - 1) (public base)) /\
    (forall n c, In (n, c) (public base) -> c <= r - 1) /\
    errorCodeToString cls !! r = Some "REGEX_MISMATCH_ERROR"%string.
Proof.
  intros Hinit.
  destruct (static_init_spec _ _ Hinit) as (r & Hr & Hlt & _ & Hrev & _ & Hsome).
  exists r. split; [done|]. split; [|split].
  - unfold static_init in Hinit.
    destruct (public base) as [|[n0 first] codes] eqn:Hcodes; [done|].
    injection Hinit as <-. unfold REGEX_MISMATCH_ERROR, getattr in Hr.
    cbn [attributes] in Hr. rewrite lookup_attr_setattr in Hr.
    injection Hr as <-. rewrite Z.add_simpl_r.
    change (find_largest (if first >? first then first else first) (map snd codes))
      with (find_largest first (map snd ((n0, first) :: codes))).
    destruct (find_largest_In first (map snd ((n0, first) :: codes))) as [->|Hin].
    + exists n0. by left.
    + apply in_map_iff in Hin as ([n c] & Hc & Hin). simpl in Hc. subst c.
      by exists n.
  - intros n c Hin. specialize (Hlt _ _ Hin). lia.
  - destruct Hsome as [n Hn]. rewrite Hn. f_equal.
    destruct (Hrev _ _ Hn) as [[-> _]|Hin]; [done|].
    specialize (Hlt _ _ Hin). lia.
Qed.

Lemma lookup_attr_In name attrs c :
  lookup_attr name attrs = Some c -> In (name, c) attrs.
Proof.
  induction attrs as [|[n v] attrs IH]; [done|]. simpl.
  destruct (String.eqb_spec name n) as [->|Hne].
  - intros [= ->]. by left.
  - intros Hl. right. by apply IH.
Qed.

Lemma lookup_attr_NoDup name attrs c :
  NoDup (map fst attrs) -> In (name, c) attrs -> lookup_attr name attrs = Some c.
Proof.
  induction attrs as [|[n v] attrs IH]; [done|]. simpl.
  intros Hnd. apply NoDup_cons in Hnd as [Hn Hnd].
  intros [[= -> ->]|Hin].
  - by rewrite String.eqb_refl.
  - destruct (String.eqb_spec name n) as [->|Hne]; [|by apply IH].
    exfalso. apply Hn. apply list_elem_of_In, in_map_iff. by exists (n, c).
Qed.

Lemma codes_NoDup (attrs : list (string * Z)) n n' c :
  NoDup (map snd attrs) -> In (n, c) attrs -> In (n', c) attrs -> n = n'.
Proof.
  induction attrs as [|[m v] attrs IH]; [done|]. simpl.
  intros Hnd. apply NoDup_cons in Hnd as [Hv Hnd].
  intros [Heq|Hin] [Heq'|Hin'].
  - congruence.
  - injection Heq as -> ->.
    exfalso. apply Hv. apply list_elem_of_In, in_map_iff. by exists (n', c).
  - injection Heq' as -> ->.
    exfalso. apply Hv. apply list_elem_of_In, in_map_iff. by exists (n, c).
  - by apply IH.
Qed.

(** X13.  Codes and names go back and forth.  When the names of the tool's
    class are distinct and [REGEX_MISMATCH_ERROR] is not among them, the
    name that the reverse dictionary gives a code is an attribute with that
    code; when moreover no two public names share a code, every public
    attribute is found again under its code. *)
Theorem registry_round_trip base cls :
  static_init base = Ok cls ->
  NoDup (map fst base) ->
  lookup_attr "REGEX_MISMATCH_ERROR" base = None ->
  (forall c n, errorCodeToString cls !! c = Some n ->
               getattr (attributes cls) n = Ok c) /\
  (NoDup (map snd (public base)) ->
   forall n c, startswith "_" n = false ->
               getattr (attributes cls) n = Ok c ->
               errorCodeToString cls !! c = Some n).
Proof.
  intros Hinit Hnames Hfresh.
  destruct (static_init_spec _ _ Hinit)
    as (r & Hr & Hlt & Hattr & Hrev & Hpres & Hsome).
  split.
  - intros c n Hc. destruct (Hrev _ _ Hc) as [[-> ->]|Hin]; [done|].
    apply In_public in Hin as [Hin _].
    assert (n <> "REGEX_MISMATCH_ERROR"%string) as Hne.
    { intros ->. apply In_lookup_attr in Hin as [? Hin]. congruence. }
    rewrite Hattr by done. unfold getattr.
    by rewrite (lookup_attr_NoDup _ _ _ Hnames Hin).
  - intros Hcodes n c Hn Hget.
    destruct (decide (n = "REGEX_MISMATCH_ERROR"%string)) as [->|Hne].
    + fold (REGEX_MISMATCH_ERROR cls) in Hget. rewrite Hr in Hget.
      injection Hget as <-.
      destruct Hsome as [n' Hn']. rewrite Hn'. f_equal.
      destruct (Hrev _ _ Hn') as [[-> _]|Hin]; [done|].
      specialize (Hlt _ _ Hin). lia.
    + rewrite Hattr in Hget by done. unfold getattr in Hget.
      destruct (lookup_attr n base) as [c'|] eqn:Hl; [|done].
      injection Hget as ->. apply lookup_attr_In in Hl.
      assert (Hin : In (n, c) (public base)) by (by apply In_public).
      destruct (Hpres _ _ Hin Hne) as [n' Hn']. rewrite Hn'. f_equal.
      destruct (Hrev _ _ Hn') as [[_ ->]|Hin'].
      * specialize (Hlt _ _ Hin). lia.
      * by apply (codes_NoDup (public base) n' n c).
Qed.

(** [registry_round_trip] at work on the sample registry. *)
Lemma registry_round_trip_witness :
  errorCodeToString sample_cls !! 7 = Some "TIMEOUT"%string /\
  getattr (attributes sample_cls) "TIMEOUT" = Ok 7 /\
  errorCodeToString sample_cls !! 10 = Some "REGEX_MISMATCH_ERROR"%string.
Proof.
  assert (Hnames : NoDup (map fst sample_ErrorCodes)).
  { apply NoDup_ListNoDup. repeat constructor; simpl; intuition congruence. }
  assert (Hcodes : NoDup (map snd (public sample_ErrorCodes))).
  { apply NoDup_ListNoDup. repeat constructor; simpl; intuition congruence. }
  destruct (registry_round_trip sample_ErrorCodes sample_cls eq_refl Hnames
              eq_refl) as [Hback Hforth].
  split; [reflexivity|]. split.
  - exact (Hback 7 "TIMEOUT"%string eq_refl).
  - exact (Hforth Hcodes "REGEX_MISMATCH_ERROR"%string 10 eq_refl eq_refl).
Defined.

(** [regex_mismatch_code] at work on the sample registry, whose largest
    code is 9. *)
Lemma regex_mismatch_code_witness :
  exists r, REGEX_MISMATCH_ERROR sample_cls = Ok r /\
            errorCodeToString sample_cls !! r = Some "REGEX_MISMATCH_ERROR"%string.
Proof.
  destruct (regex_mismatch_code sample_ErrorCodes sample_cls eq_refl)
    as (r & Hr & _ & _ & Hname).
  by exists r.
Defined.

(** *** [enum] *)

Lemma dict_fold_lookup {K V : Type} `{Countable K} (pairs : list (K * V))
    (m : gmap K V) k v :
  fold_left (fun m kv => <[fst kv := snd kv]> m) pairs m !! k = Some v ->
  In (k, v) pairs \/ m !! k = Some v.
Proof.
  revert m. induction pairs as [|[k' v'] pairs IH]; intros m; [by right|].
  simpl. intros Hl. destruct (IH _ Hl) as [Hin|Hm]; [left; by right|].
  destruct (decide (k' = k)) as [->|Hne].
  - rewrite lookup_insert_eq in Hm. injection Hm as ->. left; by left.
  - rewrite lookup_insert_ne in Hm by done. by right.
Qed.

Lemma dict_fold_present {K V : Type} `{Countable K} (pairs : list (K * V))
    (m : gmap K V) k :
  (exists v, In (k, v) pairs) \/ is_Some (m !! k) ->
  is_Some (fold_left (fun m kv => <[fst kv := snd kv]> m) pairs m !! k).
Proof.
  revert m. induction pairs as [|[k' v'] pairs IH]; intros m.
  - intros [[v []]|Hm]. done.
  - simpl. intros [[v [[= -> ->]|Hin]]|Hm]; apply IH.
    + right. rewrite lookup_insert_eq. by eexists.
    + left. by exists v.
    + right. destruct (decide (k' = k)) as [->|Hne].
      * rewrite lookup_insert_eq. by eexists.
      * by rewrite lookup_insert_ne.
Qed.

Lemma dict_lookup {K V : Type} `{Countable K} (pairs : list (K * V)) k v :
  dict pairs !! k = Some v -> In (k, v) pairs.
Proof.
  intros Hl. by destruct (dict_fold_lookup _ _ _ _ Hl) as [Hin|Hm].
Qed.

Lemma dict_present {K V : Type} `{Countable K} (pairs : list (K * V)) k v :
  In (k, v) pairs -> is_Some (dict pairs !! k).
Proof. intros Hin. apply dict_fold_present. left. by exists v. Qed.

Lemma In_positions (sequential : list string) name i :
  In (name, i) (zip sequential (map Z.of_nat (seq 0 (length sequential)))) ->
  0 <= i /\ sequential !! Z.to_nat i = Some name.
Proof.
  intros Hin. apply list_elem_of_In, list_elem_of_lookup in Hin as [j Hj].
  apply lookup_zip_with_Some in Hj as (x & y & [= -> ->] & Hx & Hy).
  rewrite list_lookup_fmap in Hy.
  destruct (seq 0 (length sequential) !! j) as [j'|] eqn:Hseq; [|done].
  apply lookup_seq in Hseq as [-> _]. injection Hy as <-.
  split; [lia|]. by rewrite Nat2Z.id.
Qed.

(** X14.  The classes that [enum] builds: every name but [reverseMapping]
    is an attribute whose value is a position of that name in the
    arguments, and the reverse dictionary leads from that value back to the
    name, also when a name is given twice; [reverseMapping] is always the
    reverse dictionary. *)
Theorem enum_round_trip (sequential : list string) (name : string) :
  name ∈ sequential ->
  name <> "reverseMapping"%string ->
  exists i reverse,
    enum sequential !! name = Some (EInt i) /\
    enum sequential !! "reverseMapping"%string = Some (EReverse reverse) /\
    reverse !! i = Some name /\
    0 <= i /\ sequential !! Z.to_nat i = Some name.
Proof.
  intros Hin Hname. unfold enum.
  set (pairs := zip sequential (map Z.of_nat (seq 0 (length sequential)))).
  set (enums := dict pairs).
  set (reverse := dict (map (fun kv => (snd kv, fst kv)) (map_to_list enums))).
  assert (Hpos : forall n i, enums !! n = Some i ->
                             0 <= i /\ sequential !! Z.to_nat i = Some n).
  { intros n i Hn. by apply In_positions, dict_lookup. }
  assert (is_Some (enums !! name)) as [i Hi].
  { apply list_elem_of_lookup in Hin as [j Hj].
    apply (dict_present pairs name (Z.of_nat j)).
    apply list_elem_of_In, list_elem_of_lookup. exists j.
    apply lookup_zip_with_Some. exists name, (Z.of_nat j).
    split; [done|]. split; [done|].
    rewrite list_lookup_fmap, lookup_seq_lt; [done|].
    by apply lookup_lt_Some in Hj. }
  exists i, reverse. rewrite lookup_insert_ne by done.
  rewrite lookup_insert_eq, lookup_fmap, Hi. split; [done|]. split; [done|].
  split; [|by apply Hpos].
  assert (is_Some (reverse !! i)) as [name' Hname'].
  { apply (dict_present _ i name), in_map_iff. exists (name, i).
    split; [done|]. by apply list_elem_of_In, elem_of_map_to_list. }
  rewrite Hname'. f_equal.
  apply dict_lookup, in_map_iff in Hname' as ([n j] & [= -> ->] & Hn).
  apply list_elem_of_In, elem_of_map_to_list in Hn.
  destruct (Hpos _ _ Hn) as [_ Hn'], (Hpos _ _ Hi) as [_ Hi']. congruence.
Qed.

(** [enum_round_trip] at work: the exit statuses of the tester are the
    positions of their names. *)
Lemma enum_round_trip_witness :
  enum tester_codes !! "KERNEL_PARSE_ERROR"%string
  = Some (EInt GPUVerifyTesterErrorCodes.KERNEL_PARSE_ERROR) /\
  exists i reverse,
    enum tester_codes !! "GENERAL_ERROR"%string = Some (EInt i) /\
    enum tester_codes !! "reverseMapping"%string = Some (EReverse reverse) /\
    reverse !! i = Some "GENERAL_ERROR"%string.
Proof.
  split; [vm_compute; reflexivity|].
  assert (Hin : "GENERAL_ERROR"%string ∈ tester_codes).
  { unfold tester_codes.
    repeat (first [apply list_elem_of_here | apply list_elem_of_further]). }
  assert (Hne : "GENERAL_ERROR"%string <> "reverseMapping"%string)
    by discriminate.
  pose proof (enum_round_trip tester_codes "GENERAL_ERROR" Hin Hne)
    as (i & reverse & Hi & Hrev & Hname & _).
  exists i, reverse.
  split; [exact Hi|]. split; [exact Hrev|exact Hname].
Defined.

(** ** Further properties of the worker pool *)

Section PoolExtras.

Variable compiled : Type.
Variable re_compile : list re_flag -> string -> compiled + string.
Variable re_search : compiled -> string -> bool.
Variable cls : GPUVerifyErrorCodes.

Local Abbreviation step := (step compiled re_compile re_search cls).
Local Abbreviation run_test := (run compiled re_compile re_search cls).

Lemma crashed_grows s s' :
  rtc step s s' -> (length (crashed s) <= length (crashed s'))%nat.
Proof.
  induction 1 as [|s1 s2 s3 Hstep _ IH]; [done|].
  etrans; [|exact IH]. destruct Hstep; simpl; lia.
Qed.

(** X15.  A tool that exits with a code that the registry does not know
    stops the whole run: [test.run()] raises [KeyError] for that code, the
    worker thread dies before [task_done()], and from then on
    [waitForCompletion] can never return, whatever the other workers do. *)
Theorem unregistered_exit_code_blocks numberOfThreads added s w test self
    returncode stdout :
  rtc step (ThreadPool_start numberOfThreads added) s ->
  workers s !! w = Some (Running test) ->
  tests s !! test = Some self ->
  errorCodeToString cls !! returncode = None ->
  run_test self returncode stdout = Raise (KeyError (KInt returncode)) /\
  step s (crash s w test) /\
  forall s', rtc step (crash s w test) s' -> ~ waitForCompletion_returns s'.
Proof.
  intros Hreach Hw Ht Hcode.
  assert (Hrun : run_test self returncode stdout
                 = Raise (KeyError (KInt returncode))).
  { unfold run, errorCodeToString_get. by rewrite Hcode. }
  assert (Hstep : step s (crash s w test)).
  { exact (step_run_raises _ _ _ _ s w test self returncode stdout _ Hw Ht Hrun). }
  split; [done|]. split; [done|].
  intros s' Hs' Hret.
  assert (Hall : rtc step (ThreadPool_start numberOfThreads added) s').
  { etrans; [exact Hreach|]. by eapply rtc_l. }
  destruct (pool_invariant_reachable _ _ _ _ _ _ _ Hall) as [_ Hunf _ _ _ _ _ _].
  apply crashed_grows in Hs'. simpl in Hs'.
  unfold waitForCompletion_returns in Hret. lia.
Qed.

(** X16.  A pool without workers does nothing: its state never changes,
    and [waitForCompletion] does not return when a test was added. *)
Theorem no_worker_no_completion added s :
  rtc step (ThreadPool_start 0 added) s ->
  added <> [] ->
  s = ThreadPool_start 0 added /\ ~ waitForCompletion_returns s.
Proof.
  intros Hreach Hadded.
  assert (s = ThreadPool_start 0 added) as ->.
  { revert s Hreach. apply rtc_ind_r; [done|].
    intros s s' _ Hstep ->.
    inversion Hstep as [? w ? ? Hw| ? w ? ? ? ? ? ? Hw| ? w ? ? ? ? ? Hw
                       | ? w ? ? ? Hw]; simpl in Hw;
      by rewrite lookup_nil in Hw. }
  split; [done|]. unfold waitForCompletion_returns. simpl.
  by destruct added.
Qed.

End PoolExtras.

(** [unregistered_exit_code_blocks] at work: the sample registry has no
    code 77. *)
Lemma unregistered_exit_code_blocks_witness :
  step string literal_compile literal_search sample_cls
    sample_taken (crash sample_taken 0 0) /\
  ~ waitForCompletion_returns (crash sample_taken 0 0).
Proof.
  assert (Hreach : rtc (step string literal_compile literal_search sample_cls)
                       (ThreadPool_start 1 [kernel_unexecuted]) sample_taken).
  { apply rtc_once.
    exact (step_get string literal_compile literal_search sample_cls
             (ThreadPool_start 1 [kernel_unexecuted]) 0%nat 0%nat []
             eq_refl eq_refl). }
  destruct (unregistered_exit_code_blocks string literal_compile literal_search
              sample_cls 1 [kernel_unexecuted] sample_taken 0%nat 0%nat
              kernel_unexecuted 77 EmptyString Hreach eq_refl eq_refl eq_refl)
    as (_ & Hstep & Hblock).
  split; [exact Hstep|]. apply Hblock. apply rtc_refl.
Defined.

(** [no_worker_no_completion] at work. *)
Lemma no_worker_no_completion_witness :
  ~ waitForCompletion_returns (ThreadPool_start 0 [kernel_unexecuted]).
Proof.
  exact (proj2 (no_worker_no_completion string literal_compile literal_search
                  sample_cls [kernel_unexecuted] _ (rtc_refl _ _)
                  ltac:(discriminate))).
Defined.

(** ** Properties of the summary *)

Lemma summariseTests_loop_spec cls success tests :
  SUCCESS cls = Ok success ->
  forall counters,
    exists s,
      summariseTests_loop cls counters tests = Ok s /\
      (OpenCLCounter s + CUDACounter s =
       OpenCLCounter counters + CUDACounter counters + length tests)%nat /\
      (passCounter s =
       passCounter counters + length (List.filter (counts_as_pass success) tests))%nat /\
      (xfailCounter s =
       xfailCounter counters + length (List.filter (counts_as_xfail success) tests))%nat /\
      (failCounter s =
       failCounter counters + length (List.filter counts_as_fail tests))%nat /\
      (skipCounter s =
       skipCounter counters
       + length (List.filter (fun test => negb (hasBeenExecuted test)) tests))%nat.
Proof.
  intros Hs. induction tests as [|test tests IH]; intros counters.
  - exists counters. simpl. repeat split; lia.
  - cbn [summariseTests_loop].
    assert (exists c',
      count_outcome cls (count_kind counters test) test = Ok c' /\
      (OpenCLCounter c' + CUDACounter c' =
       OpenCLCounter counters + CUDACounter counters + 1)%nat /\
      passCounter c' =
        (passCounter counters + if counts_as_pass success test then 1 else 0)%nat /\
      xfailCounter c' =
        (xfailCounter counters + if counts_as_xfail success test then 1 else 0)%nat /\
      failCounter c' =
        (failCounter counters + if counts_as_fail test then 1 else 0)%nat /\
      skipCounter c' =
        (skipCounter counters + if negb (hasBeenExecuted test) then 1 else 0)%nat)
      as (c' & -> & Hk & Hp & Hx & Hf & Hsk).
    { unfold count_outcome, count_kind, counts_as_pass, counts_as_xfail,
        counts_as_fail, hasBeenExecuted.
      destruct (endswith "cl" (path test)), (testPassed test) as [[]|];
        simpl; rewrite ?Hs; simpl;
        try destruct (bool_decide (returnedCode test = Some success));
        eexists; (split; [reflexivity|]); simpl; repeat split; lia. }
    destruct (IH c') as (s & Hloop & Hk' & Hp' & Hx' & Hf' & Hsk').
    exists s. split; [exact Hloop|]. simpl.
    destruct (counts_as_pass success test), (counts_as_xfail success test),
      (counts_as_fail test), (negb (hasBeenExecuted test));
      simpl; repeat split; lia.
Qed.

(** X18.  The summary accounts for every test exactly once, twice over:
    each is an OpenCL or a CUDA kernel, and each is a pass, an expected
    failure, an unexpected failure or skipped; the skipped ones are those
    never executed, the unexpected failures those that did not pass, and a
    test that passed is an expected failure unless it returned the success
    code. *)
Theorem summary_partitions_tests cls success tests :
  SUCCESS cls = Ok success ->
  exists s,
    summariseTests cls tests = Ok s /\
    (OpenCLCounter s + CUDACounter s = length tests)%nat /\
    (passCounter s + xfailCounter s + failCounter s + skipCounter s
     = length tests)%nat /\
    passCounter s = length (List.filter (counts_as_pass success) tests) /\
    xfailCounter s = length (List.filter (counts_as_xfail success) tests) /\
    failCounter s = length (List.filter counts_as_fail tests) /\
    skipCounter s =
      length (List.filter (fun test => negb (hasBeenExecuted test)) tests).
Proof.
  intros Hs. unfold summariseTests.
  destruct (summariseTests_loop_spec cls success tests Hs
              {| OpenCLCounter := 0; CUDACounter := 0; passCounter := 0;
                 failCounter := 0; xfailCounter := 0; skipCounter := 0 |})
    as (s & Hloop & Hk & Hp & Hx & Hf & Hsk).
  simpl in *. exists s. split; [exact Hloop|]. split; [lia|].
  split; [|repeat split; lia].
  rewrite Hp, Hx, Hf, Hsk. clear.
  induction tests as [|test tests IH]; [done|]. simpl.
  unfold counts_as_pass, counts_as_xfail, counts_as_fail, hasBeenExecuted in *.
  destruct (testPassed test) as [[]|]; simpl;
    try destruct (bool_decide (returnedCode test = Some success));
    simpl; lia.
Qed.

(** [summary_partitions_tests] at work: one pass, one failure and one
    test that was not run. *)
Lemma summary_partitions_tests_witness :
  summariseTests sample_cls [kernel_passed; kernel_failed; kernel_unexecuted]
  = Ok {| OpenCLCounter := 3; CUDACounter := 0; passCounter := 1;
          failCounter := 1; xfailCounter := 0; skipCounter := 1 |} /\
  exists s,
    summariseTests sample_cls [kernel_passed; kernel_failed; kernel_unexecuted]
    = Ok s /\
    (passCounter s + xfailCounter s + failCounter s + skipCounter s = 3)%nat.
Proof.
  split; [reflexivity|].
  destruct (summary_partitions_tests sample_cls 0
              [kernel_passed; kernel_failed; kernel_unexecuted] eq_refl)
    as (s & Hs & _ & Hsum & _).
  exists s. split; [exact Hs|exact Hsum].
Defined.

Section SummaryOfRun.

Variable compiled : Type.
Variable re_compile : list re_flag -> string -> compiled + string.
Variable re_search : compiled -> string -> bool.
Variable cls : GPUVerifyErrorCodes.

(** X19.  A test that [run] has executed is summarised by what its header
    expected: it is never skipped; it is a pass when it passed and was
    expected to succeed, an expected failure when it passed and was
    expected to fail, and an unexpected failure when it did not pass. *)
Theorem executed_test_summary self returncode stdout self' success :
  run compiled re_compile re_search cls self returncode stdout = Ok self' ->
  SUCCESS cls = Ok success ->
  hasBeenExecuted self' = true /\
  counts_as_pass success self'
    = truthy (testPassed self') && (expectedReturnCode self =? success) /\
  counts_as_xfail success self'
    = truthy (testPassed self') && negb (expectedReturnCode self =? success) /\
  counts_as_fail self' = negb (truthy (testPassed self')).
Proof.
  intros Hrun Hs.
  destruct (run_inv _ _ _ _ _ _ _ _ Hrun) as (rules & returned & _ & _ & _ & ->).
  unfold counts_as_pass, counts_as_xfail, counts_as_fail, hasBeenExecuted.
  simpl. split; [done|].
  destruct (returned =? expectedReturnCode self) eqn:Heq; simpl; [|done].
  apply Z.eqb_eq in Heq. subst returned.
  assert (bool_decide (Some (expectedReturnCode self) = Some success)
          = (expectedReturnCode self =? success)) as ->; [|done].
  destruct (Z.eqb_spec (expectedReturnCode self) success) as [Heq|Hne].
  - apply bool_decide_eq_true. by rewrite Heq.
  - apply bool_decide_eq_false. congruence.
Qed.

End SummaryOfRun.

(** [executed_test_summary] at work: the sample kernel expects success and
    the tool reports a compilation error. *)
Lemma executed_test_summary_witness :
  exists self',
    run string literal_compile literal_search sample_cls
      kernel_unexecuted 2 EmptyString = Ok self' /\
    counts_as_fail self' = true /\
    counts_as_pass 0 self' = false.
Proof.
  eexists. split; [reflexivity|].
  destruct (executed_test_summary string literal_compile literal_search
              sample_cls kernel_unexecuted 2 EmptyString _ 0 eq_refl eq_refl)
    as (_ & Hp & _ & Hf).
  split; [exact Hf|exact Hp].
Defined.

(** ** Further properties of the driver *)

Section MainExtras.

Variable compiled : Type.
Variable re_compile : list re_flag -> string -> compiled + string.
Variable dirname : string -> string.
Variable cls : GPUVerifyErrorCodes.
Variable pickles : string -> result (list GPUVerifyTestKernel).
Variable isdir : string -> bool.
Variable find_kernels : string -> string -> list string.
Variable open_file : string -> list string.
Variable waitForCompletion :
  Z -> list GPUVerifyTestKernel -> list GPUVerifyTestKernel ->
  list GPUVerifyTestKernel.

Local Abbreviation parse_all :=
  (parse_kernels compiled re_compile dirname cls open_file).
Local Abbreviation run_main :=
  (main compiled re_compile dirname cls pickles isdir find_kernels open_file
        waitForCompletion).

(** X20.  The tests put in the pool are the parsed tests that the options
    select, in their order: all of them without an option, those expected
    to succeed with [--run-only-pass], those expected to fail with
    [--run-only-xfail]; without an option the success code is not even
    read. *)
Theorem add_tests_selects args tests :
  (run_only_pass args = false -> run_only_xfail args = false ->
   add_tests cls args tests = Ok tests) /\
  (forall success,
     SUCCESS cls = Ok success ->
     add_tests cls args tests =
     Ok (List.filter
           (fun test => selected args success (expectedReturnCode test)) tests)).
Proof.
  split.
  - intros Hp Hx. induction tests as [|test tests IH]; [done|].
    simpl. rewrite Hp, Hx. simpl. by rewrite IH.
  - intros success Hs. induction tests as [|test tests IH]; [done|].
    simpl. unfold selected in *. rewrite IH.
    destruct (run_only_pass args), (run_only_xfail args); rewrite ?Hs; simpl;
      destruct (expectedReturnCode test =? success); simpl; rewrite ?Hs; done.
Qed.


(** X22.  A recorded run whose load raises [IOError] or
    [pickle.UnpicklingError] ends the program with the status of a file
    that cannot be opened: in a comparison of two files for either of them,
    and in a test run for the file of [--compare-run], before the directory
    is looked at and before any test is run.  Any other exception of the
    load, such as the [EOFError] of an empty or truncated file, is not
    caught: the program ends with that exception at the same points. *)
Theorem unreadable_pickle_exits unreadable e :
  pickles unreadable = Raise e ->
  let outcome : result Z :=
    if caught_by_openPickle e
    then Raise (SystemExit GPUVerifyTesterErrorCodes.FILE_OPEN_ERROR)
    else Raise e in
  (forall new prefix,
     comparePickleFiles pickles unreadable new prefix = outcome) /\
  (forall old oldTests prefix,
     pickles old = Ok oldTests ->
     comparePickleFiles pickles old unreadable prefix = outcome) /\
  (forall args,
     config_error args = false ->
     compare_run args = unreadable ->
     unreadable <> EmptyString ->
     run_main args = outcome).
Proof.
  intros Hload outcome.
  assert (Hopen : forall A (k : list GPUVerifyTestKernel -> result A),
            openPickle pickles unreadable ≫= k =
            if caught_by_openPickle e
            then Raise (SystemExit GPUVerifyTesterErrorCodes.FILE_OPEN_ERROR)
            else Raise e).
  { intros A k. unfold openPickle. rewrite Hload. by destruct e. }
  split; [|split].
  - intros new prefix. unfold comparePickleFiles. by rewrite Hopen.
  - intros old oldTests prefix Hold. unfold comparePickleFiles.
    assert (openPickle pickles old = Ok oldTests) as ->.
    { unfold openPickle. by rewrite Hold. }
    change (Ok oldTests ≫= ?k) with (k oldTests). cbv beta.
    by rewrite Hopen.
  - intros args Hconfig Hrun Hne. unfold config_error in Hconfig.
    apply orb_false_iff in Hconfig as [Hsame Hthreads].
    unfold main. rewrite Hsame, Hthreads, Hrun.
    assert ((0 <? String.length unreadable)%nat = true) as ->.
    { by destruct unreadable. }
    unfold openPickle. rewrite Hload. by destruct e.
Qed.

End MainExtras.

(** [add_tests_selects] at work: of a test expected to succeed and one
    expected to time out, [--run-only-xfail] keeps the second. *)
Lemma add_tests_selects_witness :
  add_tests sample_cls only_xfail [kernel_unexecuted; kernel_expecting_timeout]
  = Ok [kernel_expecting_timeout].
Proof.
  exact (proj2 (add_tests_selects sample_cls only_xfail
                  [kernel_unexecuted; kernel_expecting_timeout]) 0 eq_refl).
Defined.


(** [unreadable_pickle_exits] at work: the sample environment has no file
    [missing.pickle], and its file [empty.pickle] is empty. *)
Lemma unreadable_pickle_exits_witness :
  comparePickleFiles sample_pickles "old.pickle" "missing.pickle" "testsuite"
  = Raise (SystemExit GPUVerifyTesterErrorCodes.FILE_OPEN_ERROR) /\
  main string literal_compile (fun p => p) sample_cls sample_pickles
    (fun _ => false) sample_find_kernels sample_open_file
    (one_worker sample_cls 2 "error") missing_compare_run
  = Raise (SystemExit GPUVerifyTesterErrorCodes.FILE_OPEN_ERROR) /\
  comparePickleFiles sample_pickles "empty.pickle" "old.pickle" "testsuite"
  = Raise EOFError /\
  exit_status
    (comparePickleFiles sample_pickles "empty.pickle" "old.pickle" "testsuite")
  = 1.
Proof.
  destruct (unreadable_pickle_exits string literal_compile (fun p => p)
              sample_cls sample_pickles (fun _ => false) sample_find_kernels
              sample_open_file (one_worker sample_cls 2 "error")
              "missing.pickle" IOError eq_refl) as (_ & Hnew & Hmain).
  destruct (unreadable_pickle_exits string literal_compile (fun p => p)
              sample_cls sample_pickles (fun _ => false) sample_find_kernels
              sample_open_file (one_worker sample_cls 2 "error")
              "empty.pickle" EOFError eq_refl) as (Hempty & _ & _).
  split; [|split; [|split]].
  - exact (Hnew "old.pickle"%string [kernel_passed] "testsuite"%string eq_refl).
  - exact (Hmain missing_compare_run eq_refl eq_refl ltac:(discriminate)).
  - exact (Hempty "old.pickle"%string "testsuite"%string).
  - by rewrite (Hempty "old.pickle"%string "testsuite"%string).
Defined.

(** ** Properties of the web service's argument filter *)

Section FilterCmdArgsProperties.

Variable splitlines : string -> list string.
Variable re_match : string -> string -> option string.

Local Abbreviation accept := (first_match re_match safeOptions).
Local Abbreviation reject := (not_whitelisted re_match).

Local Opaque safeOptions.

Lemma first_match_Some options arg group0 :
  first_match re_match options arg = Some group0 ->
  exists option,
    option ∈ options /\
    re_match (String "^" (String.app option "$")) arg = Some group0.
Proof.
  induction options as [|option options IH]; [done|]. simpl.
  destruct (re_match _ arg) as [g|] eqn:Hm.
  - intros [= ->]. exists option. split; [by left|done].
  - intros (o & Ho & Hg)%IH. exists o. split; [by right|done].
Qed.

Lemma filterCmdArgs_loop_spec foundArgs : forall args ignoredArgs,
  filterCmdArgs_loop re_match foundArgs args ignoredArgs =
  (args ++ omap accept foundArgs,
   (fun ignored => ignored ++ List.filter reject foundArgs) <$> ignoredArgs).
Proof.
  induction foundArgs as [|arg foundArgs IH]; intros args ignoredArgs.
  - simpl. rewrite app_nil_r. destruct ignoredArgs; simpl; [|done].
    by rewrite app_nil_r.
  - cbn [filterCmdArgs_loop omap list_omap List.filter]. unfold not_whitelisted at 1.
    destruct (first_match re_match safeOptions arg) as [group0|] eqn:Harg.
    + rewrite IH. by rewrite <- app_assoc.
    + rewrite IH. destruct ignoredArgs; simpl; [|done]. by rewrite <- app_assoc.
Qed.

Lemma accepted_or_rejected (foundArgs : list string) :
  (length (omap accept foundArgs) + length (List.filter reject foundArgs)
   = length foundArgs)%nat.
Proof.
  induction foundArgs as [|arg foundArgs IH]; [done|].
  cbn [omap list_omap List.filter]. unfold not_whitelisted at 1.
  destruct (first_match re_match safeOptions arg); simpl; lia.
Qed.

(** X23.  Only what the whitelist matches gets through.  The arguments
    found are the words of the first line after its comment marker,
    followed by the additional arguments; each of them is either handed on,
    as the text that the first matching option of the whitelist matched,
    or ignored, and recorded as such when the caller gave a list for that;
    the order is kept and nothing else is handed on. *)
Theorem filterCmdArgs_whitelist source ignoredArgs additionalArgs args' ignored' :
  filterCmdArgs splitlines re_match source [] ignoredArgs additionalArgs
    = inr (args', ignored') ->
  exists firstLine rest,
    splitlines source = firstLine :: rest /\
    startswith "//" firstLine = true /\
    let foundArgs :=
      String.words (slice_from 2 firstLine) ++ default [] additionalArgs in
    args' = omap accept foundArgs /\
    ignored' =
      ((fun ignored => ignored ++ List.filter reject foundArgs) <$> ignoredArgs) /\
    (length args' + length (List.filter reject foundArgs)
     = length foundArgs)%nat /\
    forall a, a ∈ args' ->
      exists option arg,
        option ∈ safeOptions /\ arg ∈ foundArgs /\
        re_match (String "^" (String.app option "$")) arg = Some a.
Proof.
  intros Hloop. unfold filterCmdArgs in Hloop.
  cbn [length Nat.eqb negb] in Hloop.
  destruct (splitlines source) as [|firstLine rest]; [done|].
  destruct (startswith "//" firstLine) eqn:Hstart; [|done].
  cbn [negb] in Hloop. cbv zeta in Hloop.
  exists firstLine, rest. split; [done|]. split; [done|].
  intros foundArgs.
  assert (Hfound :
    match additionalArgs with
    | Some (a :: more) => String.words (slice_from 2 firstLine) ++ a :: more
    | _ => String.words (slice_from 2 firstLine)
    end = foundArgs).
  { unfold foundArgs. destruct additionalArgs as [[|a more]|]; simpl;
      by rewrite ?app_nil_r. }
  rewrite Hfound, filterCmdArgs_loop_spec in Hloop. simpl in Hloop.
  injection Hloop as <- <-.
  split; [done|]. split; [done|]. split; [apply accepted_or_rejected|].
  intros a (arg & Harg & Ha)%list_elem_of_omap.
  apply first_match_Some in Ha as (option & Ho & Hm). by exists option, arg.
Qed.

(** X24.  The filter returns exactly when the list to fill is empty and
    the source has a first line that starts with the comment marker; it
    raises [IndexError], not its own exception, exactly when the list is
    empty and the source has no line at all. *)
Theorem filterCmdArgs_returns source args ignoredArgs additionalArgs :
  ((exists result,
      filterCmdArgs splitlines re_match source args ignoredArgs additionalArgs
      = inr result) <->
   args = [] /\
   exists firstLine rest,
     splitlines source = firstLine :: rest /\ startswith "//" firstLine = true) /\
  (filterCmdArgs splitlines re_match source args ignoredArgs additionalArgs
   = inl ApiIndexError <->
   args = [] /\ splitlines source = []).
Proof.
  unfold filterCmdArgs.
  destruct args as [|a args]; simpl.
  - destruct (splitlines source) as [|firstLine rest].
    + split; split; try done.
      * by intros [? ?].
      * by intros (_ & ? & ? & ? & _).
    + destruct (startswith "//" firstLine) eqn:Hstart; simpl.
      * split; split; try done.
        -- intros _. split; [done|]. by exists firstLine, rest.
        -- intros _. by eexists.
        -- by intros [_ ?].
      * split; split; try done.
        -- by intros [? ?].
        -- intros (_ & l & r & [= <- <-] & Hl). congruence.
        -- by intros [_ ?].
  - split; split; try done.
    + by intros [? ?].
    + by intros [? _].
    + by intros [? _].
Qed.

End FilterCmdArgsProperties.

Local Transparent safeOptions.

(** [filterCmdArgs_whitelist] at work: of the two arguments on the first
    line of a kernel, the whitelist lets one through. *)
Lemma filterCmdArgs_whitelist_witness :
  filterCmdArgs first_line_only exact_match
    (String.app (line "// --findbugs --debug") "__kernel void foo() {}")
    [] (Some []) None
  = inr (["--findbugs"%string], Some ["--debug"%string]) /\
  exists option arg,
    option ∈ safeOptions /\
    exact_match (String "^" (String.app option "$")) arg
    = Some "--findbugs"%string.
Proof.
  assert (Hrun :
    filterCmdArgs first_line_only exact_match
      (String.app (line "// --findbugs --debug") "__kernel void foo() {}")
      [] (Some []) None
    = inr (["--findbugs"%string], Some ["--debug"%string])) by reflexivity.
  split; [exact Hrun|].
  destruct (filterCmdArgs_whitelist first_line_only exact_match _ _ _ _ _ Hrun)
    as (firstLine & rest & _ & _ & _ & _ & _ & Hall).
  destruct (Hall "--findbugs"%string (list_elem_of_here _ _))
    as (option & arg & Ho & _ & Hm).
  exists option, arg. split; [exact Ho|exact Hm].
Defined.
